(** * Inference of an independent variable from diluted observations

    A shallow embedding of [helper.py]: the closure [likelihood_dilution]
    (the likelihood composer), the closure [likelihood_wrapper] (the
    evaluation-mode adapter) and the top-level [infer_independent] (the
    posterior driver).

    Conventions of the embedding.
    - A numpy [float64] is a real number of [R]: rounding, overflow,
      infinities and NaN are outside the model, so the arithmetic is exact.
      What depends on the rounding of a sum, the order of the pairs, is
      stated on a second embedding of the composer, [Float64], in which a
      [float64] is a binary64 number and every addition and division
      rounds.
    - A numpy array is its shape and its row-major buffer ([ndarray]).
    - A Python call that can raise returns a [result]; a computation carries,
      besides its [result], the list of calls it made ([M]).  The list is a
      ghost log: erasing it gives back the Python code.
    - The calibration model and [calibr8.infer_independent] are not part of
      the file; they are arguments of the definitions that use them. *)

From Stdlib Require Import Floats.
From Stdlib Require Import String.
From Stdlib Require Import List Bool Arith Lia ZArith.
From Stdlib Require Import Reals Lra.
From Stdlib Require Import Permutation.
Import ListNotations.

Local Open Scope R_scope.

(** ** Arrays *)

Module Numpy.

(** [shape] is the tuple of dimensions, [data] the buffer in row-major
    order.  A scalar ([numpy.float64], or a 0-d array) has shape [[]]. *)
Record ndarray : Type := mk_nd { shape : list nat; data : list R }.

Definition size (s : list nat) : nat := fold_right Nat.mul 1%nat s.

(** The invariant every array of numpy satisfies. *)
Definition well_formed (a : ndarray) : Prop :=
  length (data a) = size (shape a).

Definition scalar (r : R) : ndarray := mk_nd [] [r].

(** A 1-d array, [numpy.array(l)]. *)
Definition vector (l : list R) : ndarray := mk_nd [length l] l.

Definition shape_eqb (s t : list nat) : bool :=
  if list_eq_dec Nat.eq_dec s t then true else false.

(** A ufunc of one argument, applied elementwise. *)
Definition map_nd (f : R -> R) (a : ndarray) : ndarray :=
  mk_nd (shape a) (map f (data a)).

(** [x / d_i], with [d_i] a scalar: broadcast over every element. *)
Definition true_divide (x : ndarray) (d_i : R) : ndarray :=
  map_nd (fun v => v / d_i) x.

(** [numpy.exp]. *)
Definition exp (a : ndarray) : ndarray := map_nd Rtrigo_def.exp a.

(** [x[..., None]]: a new trailing axis of length one, same buffer. *)
Definition expand_last (x : ndarray) : ndarray :=
  mk_nd (shape x ++ [1%nat]) (data x).

(** The rows of a buffer: [n] consecutive chunks of [k] elements. *)
Fixpoint chunks (n k : nat) (l : list R) : list (list R) :=
  match n with
  | O => []
  | S n' => firstn k l :: chunks n' k (skipn k l)
  end.

(** Elementwise sum of two buffers. *)
Definition add_data (a b : list R) : list R :=
  map (fun p => fst p + snd p) (combine a b).

End Numpy.

Import Numpy.

(** ** Exceptions, results and the call log *)

Definition exn := string.

Inductive result (A : Type) : Type :=
| Ok (a : A)
| Raise (e : exn).
Arguments Ok {A} a.
Arguments Raise {A} e.

(** [CallComposer x y] is an entry into [likelihood_dilution];
    [CallModel x y] is a call [model.loglikelihood(x=x, y=y)]. *)
Inductive event : Type :=
| CallComposer (x : ndarray) (y : list R)
| CallModel (x : ndarray) (y : R).

Definition M (A : Type) : Type := (list event * result A)%type.

Definition ret {A} (a : A) : M A := ([], Ok a).
Definition raise {A} (e : exn) : M A := ([], Raise e).
Definition tell (ev : event) : M unit := ([ev], Ok tt).
Definition lift {A} (r : result A) : M A := ([], r).

Definition bind {A B} (m : M A) (f : A -> M B) : M B :=
  match m with
  | (t, Ok a) => let (t', r) := f a in (t ++ t', r)
  | (t, Raise e) => (t, Raise e)
  end.

(** [try: m  except: h], with the bare [except:] of the source, which
    catches every exception. *)
Definition try_except {A} (m : M A) (h : M A) : M A :=
  match m with
  | (t, Ok a) => (t, Ok a)
  | (t, Raise _) => let (t', r) := h in (t ++ t', r)
  end.

Notation "x <- c1 ;; c2" := (bind c1 (fun x => c2))
  (at level 61, c1 at next level, right associativity).
Notation "c1 ;;; c2" := (bind c1 (fun _ => c2))
  (at level 61, right associativity).

(** A list comprehension [[f(a) for a in l]]: left to right, stopping at
    the first exception. *)
Fixpoint comprehension {A B} (f : A -> M B) (l : list A) : M (list B) :=
  match l with
  | [] => ret []
  | a :: l' =>
      b <- f a ;;
      bs <- comprehension f l' ;;
      ret (b :: bs)
  end.

Definition trace {A} (m : M A) : list event := fst m.
Definition outcome {A} (m : M A) : result A := snd m.

(** The value a computation returns, when it returns one. *)
Definition returned {A} (m : M A) : option A :=
  match outcome m with
  | Ok a => Some a
  | Raise _ => None
  end.

Definition is_model_call (ev : event) : bool :=
  match ev with CallModel _ _ => true | CallComposer _ _ => false end.

Definition is_composer_call (ev : event) : bool :=
  match ev with CallComposer _ _ => true | CallModel _ _ => false end.

Definition model_calls {A} (m : M A) : list event :=
  filter is_model_call (trace m).

Definition composer_calls {A} (m : M A) : list event :=
  filter is_composer_call (trace m).

(** ** numpy functions that can raise *)

(** [numpy.sum(LLs, axis=0)] for a Python list [LLs] of arrays: the list is
    first made an array, which raises [ValueError] when its members differ
    in shape, and the members are then added up elementwise, starting from
    zeros.  The empty list becomes an array of shape [(0,)], whose sum is
    the scalar [0.0]. *)
Definition np_sum_axis0 (LLs : list ndarray) : result ndarray :=
  match LLs with
  | [] => Ok (scalar 0)
  | a :: rest =>
      if forallb (fun b => shape_eqb (shape b) (shape a)) rest
      then Ok (mk_nd (shape a)
                 (fold_left add_data (map data LLs)
                    (repeat 0 (size (shape a)))))
      else Raise "ValueError"%string
  end.

(** [for xi in x]: the rows along the first axis; a 0-d array is not
    iterable. *)
Definition iterate (x : ndarray) : result (list ndarray) :=
  match shape x with
  | [] => Raise "TypeError"%string
  | n :: s => Ok (map (mk_nd s) (chunks n (size s) (data x)))
  end.

(** ** The program *)

(** The calibration model, as far as the program uses it: its method
    [loglikelihood(x, y)], which returns an array or raises. *)
Definition calibration_model := ndarray -> R -> result ndarray.

(** What [likelihood_wrapper] returns: an array, or the Python list the
    fallback loop builds. *)
Inductive likelihoods : Type :=
| AsArray (a : ndarray)
| AsList (l : list ndarray).

(** [model.loglikelihood(x=x, y=y_i)], logged. *)
Definition loglikelihood (model : calibration_model) (x : ndarray) (y_i : R)
  : M ndarray :=
  tell (CallModel x y_i) ;;; lift (model x y_i).

(** [likelihood_dilution(x, y, d, model)].  [zip(d, y)] is [combine d y]:
    it stops with the shorter of the two. *)
Definition likelihood_dilution
  (x : ndarray) (y : list R) (d : list R) (model : calibration_model)
  : M ndarray :=
  tell (CallComposer x y) ;;;
  LLs <- comprehension
           (fun p => loglikelihood model (true_divide x (fst p)) (snd p))
           (combine d y) ;;
  s <- lift (np_sum_axis0 LLs) ;;
  ret (Numpy.exp s).

(** The loop of the [except] branch: [[likelihood_dilution(xi, y, d, model)
    for xi in x]]. *)
Definition fallback_loop
  (model : calibration_model) (d : list R) (x : ndarray) (y : list R)
  : M likelihoods :=
  xs <- lift (iterate x) ;;
  rs <- comprehension (fun xi => likelihood_dilution xi y d model) xs ;;
  ret (AsList rs).

(** [likelihood_wrapper], with keyword arguments [x], [y] and
    [scan_x = False]; a closure over [model] and [d]. *)
Definition likelihood_wrapper
  (model : calibration_model) (d : list R)
  (x : ndarray) (y : list R) (scan_x : bool) : M likelihoods :=
  if scan_x then
    try_except
      (r <- likelihood_dilution (expand_last x) y d model ;; ret (AsArray r))
      (fallback_loop model d x y)
  else
    r <- likelihood_dilution x y d model ;; ret (AsArray r).

(** The signature [calibr8.infer_independent] expects of its [likelihood]
    argument, and its own: [likelihood], [y], [lower], [upper], [steps],
    [ci_prob]. *)
Definition likelihood_function : Type :=
  ndarray -> list R -> bool -> M likelihoods.

Definition posterior_routine (ContinuousUnivariateInference : Type) : Type :=
  likelihood_function -> list R -> R -> R -> Z -> R ->
  M ContinuousUnivariateInference.

(** A keyword argument with a default value. *)
Definition keyword {A} (default : A) (given : option A) : A :=
  match given with
  | Some a => a
  | None => default
  end.

Section Driver.

(** [calibr8.ContinuousUnivariateInference] and
    [calibr8.infer_independent]. *)
Variable ContinuousUnivariateInference : Type.
Variable calibr8_infer_independent :
  posterior_routine ContinuousUnivariateInference.

(** [infer_independent], with keyword arguments [model], [d], [y],
    [lower], [upper], [steps = 300] and [ci_prob = 1]. *)
Definition infer_independent
  (model : calibration_model) (d y : list R) (lower upper : R)
  (steps : option Z) (ci_prob : option R) : M ContinuousUnivariateInference :=
  posterior <- calibr8_infer_independent
                 (likelihood_wrapper model d)
                 y lower upper (keyword 300%Z steps) (keyword 1 ci_prob) ;;
  ret posterior.

End Driver.

(** ** The words of the specification *)

(** The sum over [i < n] of [f i]. *)
Fixpoint sum_over (n : nat) (f : nat -> R) : R :=
  match n with
  | O => 0
  | S n' => sum_over n' f + f n'
  end.

(** The joint likelihood of a scalar candidate [v] under a pointwise
    log-density [f]: the exponential of the sum over the pairs. *)
Definition joint_likelihood
  (f : R -> R -> R) (d y : list R) (v : R) : R :=
  Rtrigo_def.exp
    (sum_over (length d) (fun i => f (v / nth i d 0) (nth i y 0))).

(** The values a result of [likelihood_wrapper] holds, candidate by
    candidate. *)
Definition values (r : likelihoods) : list R :=
  match r with
  | AsArray a => data a
  | AsList l => flat_map data l
  end.

(** The model of the scenario: [loglikelihood(x, y) = -(y - x)^2],
    elementwise in [x]. *)
Definition gauss_model : calibration_model :=
  fun x y => Ok (map_nd (fun v => - (y - v) ^ 2) x).

(** The same log-likelihood in a model that takes one candidate at a time:
    on anything but a scalar [x] it raises. *)
Definition gauss_scalar_model : calibration_model :=
  fun x y =>
    match shape x with
    | [] => Ok (map_nd (fun v => - (y - v) ^ 2) x)
    | _ :: _ => Raise "ValueError"%string
    end.

(** A model hands back arrays: what it returns on an array satisfies the
    invariant of arrays. *)
Definition returns_arrays (model : calibration_model) : Prop :=
  forall v y_i LL, well_formed v -> model v y_i = Ok LL -> well_formed LL.

(** A model with a domain: it takes one candidate at a time, and on the
    observation 7 it raises. *)
Definition gauss_picky_model : calibration_model :=
  fun x y =>
    match shape x with
    | [] =>
        if Req_dec_T y 7 then Raise "DomainError"%string
        else Ok (map_nd (fun v => - (y - v) ^ 2) x)
    | _ :: _ => Raise "ValueError"%string
    end.

(** A model that evaluates the pointwise log-density [f] on every element
    of [x] and keeps the shape of [x]. *)
Definition elementwise (f : R -> R -> R) (model : calibration_model) : Prop :=
  forall v y_i, model v y_i = Ok (map_nd (fun u => f u y_i) v).

(** The entry the call [model.loglikelihood(x=x / d_i, y=y_i)] leaves in
    the log, for the pair [p = (d_i, y_i)]. *)
Definition model_call_on (x : ndarray) (p : R * R) : event :=
  CallModel (true_divide x (fst p)) (snd p).

(** ** The composer in float64 arithmetic *)

Module Float64.

(** The same composer with binary64 numbers for [float64].  The call log
    is left out: every computation here has the empty log. *)

(** An array of [float64]: its shape and its row-major buffer. *)
Record ndarray : Type := mk_nd { shape : list nat; data : list float }.

Definition scalar (v : float) : ndarray := mk_nd [] [v].

(** [x / d_i]: every element is divided by [d_i], and rounded. *)
Definition true_divide (x : ndarray) (d_i : float) : ndarray :=
  mk_nd (shape x) (map (fun v => PrimFloat.div v d_i) (data x)).

(** Elementwise sum of two buffers, each sum rounded. *)
Definition add_data (a b : list float) : list float :=
  map (fun p => PrimFloat.add (fst p) (snd p)) (combine a b).

(** [numpy.sum(LLs, axis=0)].  As in exact arithmetic, the empty list gives
    the scalar [0.0] and members of different shapes raise [ValueError].
    Fewer than eight members are added to zeros one after the other, in
    the order of the list, with a rounding after each addition; numpy adds
    eight members or more in blocks, and their sum is not given here
    ([None]).  The sign of a sum that is zero depends on the release of
    numpy; [numpy.exp] is 1.0 on either zero. *)
Definition np_sum_axis0 (LLs : list ndarray) : result (option ndarray) :=
  match LLs with
  | [] => Ok (Some (scalar 0%float))
  | a :: rest =>
      if forallb (fun b => Numpy.shape_eqb (shape b) (shape a)) rest
      then
        if (length LLs <? 8)%nat
        then Ok (Some (mk_nd (shape a)
                         (fold_left add_data (map data LLs)
                            (repeat 0%float (Numpy.size (shape a))))))
        else Ok None
      else Raise "ValueError"%string
  end.

(** [numpy.exp] on one [float64], at the two arguments at which this file
    evaluates it: [exp(0.0) = 1.0], on either zero, and
    [exp(1.0) = 2.718281828459045].  No other value is given ([None]). *)
Definition exp_table (s : float) : option float :=
  if PrimFloat.eqb s 0%float then Some 1%float
  else if PrimFloat.eqb s 1%float then Some 0x1.5bf0a8b145769p+1%float
  else None.

Fixpoint exp_data (l : list float) : option (list float) :=
  match l with
  | [] => Some []
  | s :: l' =>
      match exp_table s, exp_data l' with
      | Some v, Some vs => Some (v :: vs)
      | _, _ => None
      end
  end.

(** [numpy.exp] on an array, elementwise. *)
Definition exp (a : ndarray) : option ndarray :=
  option_map (mk_nd (shape a)) (exp_data (data a)).

Definition calibration_model := ndarray -> float -> result ndarray.

(** The list [LLs] of [likelihood_dilution]. *)
Definition loglikelihoods
  (x : ndarray) (y : list float) (d : list float) (model : calibration_model)
  : M (list ndarray) :=
  comprehension (fun p => lift (model (true_divide x (fst p)) (snd p)))
    (combine d y).

(** [likelihood_dilution(x, y, d, model)].  It returns an array, or an
    array this file does not give ([None]), or raises. *)
Definition likelihood_dilution
  (x : ndarray) (y : list float) (d : list float) (model : calibration_model)
  : M (option ndarray) :=
  LLs <- loglikelihoods x y d model ;;
  s <- lift (np_sum_axis0 LLs) ;;
  ret (match s with
       | Some s => exp s
       | None => None
       end).

(** A model whose log-likelihood is the observation itself:
    [loglikelihood(x, y) = y]. *)
Definition observation_model : calibration_model :=
  fun _ y => Ok (scalar y).

End Float64.

(** ** Laws of the log-and-exception monad *)

Lemma bind_ret_r {A} (m : M A) : (a <- m ;; ret a) = m.
Proof.
  destruct m as [t [a | e]]; cbn; [ now rewrite app_nil_r | reflexivity ].
Qed.

Lemma outcome_bind {A B} (m : M A) (f : A -> M B) :
  outcome (bind m f) =
  match outcome m with
  | Ok a => outcome (f a)
  | Raise e => Raise e
  end.
Proof.
  destruct m as [t [a | e]]; cbn; [ now destruct (f a) | reflexivity ].
Qed.

Lemma trace_bind {A B} (m : M A) (f : A -> M B) :
  trace (bind m f) =
  match outcome m with
  | Ok a => trace m ++ trace (f a)
  | Raise _ => trace m
  end.
Proof.
  destruct m as [t [a | e]]; cbn; [ now destruct (f a) | reflexivity ].
Qed.

Lemma M_eq {A} (m m' : M A) :
  trace m = trace m' -> outcome m = outcome m' -> m = m'.
Proof.
  destruct m, m'; cbn; intros; subst; reflexivity.
Qed.

Lemma outcome_loglikelihood model x y_i :
  outcome (loglikelihood model x y_i) = model x y_i.
Proof. reflexivity. Qed.

Lemma trace_loglikelihood model x y_i :
  trace (loglikelihood model x y_i) = [CallModel x y_i].
Proof. reflexivity. Qed.

(** The composer, with the log put aside: the model's answers, summed and
    exponentiated. *)
Lemma outcome_likelihood_dilution x y d model :
  outcome (likelihood_dilution x y d model) =
  match outcome (comprehension
                   (fun p => loglikelihood model (true_divide x (fst p)) (snd p))
                   (combine d y)) with
  | Ok LLs =>
      match np_sum_axis0 LLs with
      | Ok s => Ok (Numpy.exp s)
      | Raise e => Raise e
      end
  | Raise e => Raise e
  end.
Proof.
  unfold likelihood_dilution.
  rewrite outcome_bind; cbn [tell outcome snd].
  rewrite outcome_bind.
  destruct (outcome (comprehension _ _)) as [LLs | e]; [ | reflexivity ].
  rewrite outcome_bind; cbn [lift outcome snd].
  destruct (np_sum_axis0 LLs); reflexivity.
Qed.

Lemma trace_likelihood_dilution x y d model :
  trace (likelihood_dilution x y d model) =
  CallComposer x y ::
  trace (comprehension
           (fun p => loglikelihood model (true_divide x (fst p)) (snd p))
           (combine d y)).
Proof.
  unfold likelihood_dilution.
  rewrite trace_bind; cbn [tell outcome snd trace fst app].
  f_equal.
  rewrite trace_bind.
  destruct (outcome (comprehension _ _)) as [LLs | e]; [ | reflexivity ].
  rewrite trace_bind; cbn [lift outcome snd trace fst].
  destruct (np_sum_axis0 LLs); cbn; now rewrite ?app_nil_r.
Qed.

(** ** The empty and the one-pair cases *)

(** C10: with no pair at all the composer calls the model not once and
    returns the scalar likelihood 1, whatever the candidate [x] is. *)
Theorem likelihood_dilution_no_pairs (x : ndarray) (model : calibration_model) :
  likelihood_dilution x [] [] model = ([CallComposer x []], Ok (scalar 1)).
Proof.
  unfold likelihood_dilution; cbn.
  unfold Numpy.exp, map_nd, scalar; cbn.
  now rewrite exp_0.
Qed.

(** ** Elementwise sums *)

Lemma length_add_data a b :
  length (add_data a b) = Nat.min (length a) (length b).
Proof. unfold add_data. now rewrite length_map, length_combine. Qed.

Lemma nth_add_data a b k :
  (k < length a)%nat -> (k < length b)%nat ->
  nth k (add_data a b) 0 = nth k a 0 + nth k b 0.
Proof.
  revert b k; induction a as [ | u a IH]; intros [ | v b] k Ha Hb;
    cbn in *; try lia.
  destruct k as [ | k]; [ reflexivity | ].
  apply IH; lia.
Qed.

Lemma nth_map_seq (F : nat -> R) (m k : nat) :
  (k < m)%nat -> nth k (map F (seq 0 m)) 0 = F k.
Proof.
  intros Hk.
  rewrite (nth_indep (map F (seq 0 m)) 0 (F O))
    by now rewrite length_map, length_seq.
  now rewrite map_nth, seq_nth.
Qed.

Lemma nth_map_lt (g : R -> R) (l : list R) (k : nat) :
  (k < length l)%nat -> nth k (map g l) 0 = g (nth k l 0).
Proof.
  intros Hk.
  rewrite (nth_indep (map g l) 0 (g 0)) by now rewrite length_map.
  apply map_nth.
Qed.

(** A buffer is the list of its elements, position by position. *)
Lemma list_as_positions (l : list R) :
  l = map (fun k => nth k l 0) (seq 0 (length l)).
Proof.
  apply nth_ext with (d := 0) (d' := 0).
  - now rewrite length_map, length_seq.
  - intros k Hk. now rewrite nth_map_seq.
Qed.

Lemma length_fold_add_data rows : forall acc m,
  length acc = m ->
  Forall (fun r => length r = m) rows ->
  length (fold_left add_data rows acc) = m.
Proof.
  induction rows as [ | r rows IH]; intros acc m Hacc Hrows; cbn.
  - assumption.
  - inversion Hrows; subst.
    apply IH; [ | assumption ].
    rewrite length_add_data. lia.
Qed.

(** Adding up [n] rows of one length, starting from zeros, gives at each
    position the sum of the rows' elements at that position. *)
Lemma fold_add_data_sum_over (row : nat -> list R) (m : nat) : forall n,
  (forall i, (i < n)%nat -> length (row i) = m) ->
  fold_left add_data (map row (seq 0 n)) (repeat 0 m) =
  map (fun k => sum_over n (fun i => nth k (row i) 0)) (seq 0 m).
Proof.
  induction n as [ | n IH]; intros Hlen.
  - cbn [seq map fold_left sum_over].
    apply nth_ext with (d := 0) (d' := 0).
    + now rewrite repeat_length, length_map, length_seq.
    + intros k Hk. rewrite repeat_length in Hk.
      now rewrite nth_repeat, nth_map_seq.
  - rewrite seq_S, map_app, fold_left_app; cbn [map fold_left plus].
    rewrite IH by (intros; apply Hlen; lia).
    apply nth_ext with (d := 0) (d' := 0).
    + rewrite length_add_data, !length_map, length_seq, Hlen by lia. lia.
    + intros k Hk.
      rewrite length_add_data, length_map, length_seq, Hlen in Hk by lia.
      rewrite nth_add_data
        by (rewrite ?length_map, ?length_seq, ?Hlen; lia).
      rewrite !nth_map_seq by lia.
      reflexivity.
Qed.

Lemma add_data_zeros (l : list R) :
  add_data (repeat 0 (length l)) l = l.
Proof.
  induction l as [ | v l IH]; cbn; [ reflexivity | ].
  unfold add_data in IH. rewrite IH. f_equal. cbn. lra.
Qed.

(** ** List comprehensions *)

Section Comprehension.

Context {A B : Type} (f : A -> M B).

Lemma outcome_comprehension_cons a l :
  outcome (comprehension f (a :: l)) =
  match outcome (f a) with
  | Ok b =>
      match outcome (comprehension f l) with
      | Ok bs => Ok (b :: bs)
      | Raise e => Raise e
      end
  | Raise e => Raise e
  end.
Proof.
  cbn [comprehension]. rewrite outcome_bind.
  destruct (outcome (f a)); [ | reflexivity ].
  rewrite outcome_bind.
  now destruct (outcome (comprehension f l)).
Qed.

Lemma trace_comprehension_cons a l :
  trace (comprehension f (a :: l)) =
  match outcome (f a) with
  | Ok _ => trace (f a) ++ trace (comprehension f l)
  | Raise _ => trace (f a)
  end.
Proof.
  cbn [comprehension]. rewrite trace_bind.
  destruct (outcome (f a)); [ | reflexivity ].
  f_equal. rewrite trace_bind.
  destruct (outcome (comprehension f l)); cbn; now rewrite ?app_nil_r.
Qed.

(** When every element evaluates, the comprehension is the list of the
    values, in order. *)
Lemma outcome_comprehension_Forall2 l bs :
  Forall2 (fun a b => outcome (f a) = Ok b) l bs ->
  outcome (comprehension f l) = Ok bs.
Proof.
  induction 1 as [ | a b l bs Hab _ IH]; [ reflexivity | ].
  now rewrite outcome_comprehension_cons, Hab, IH.
Qed.

Lemma outcome_comprehension_positions (dflt : A) l : forall (g : nat -> B),
  (forall i, (i < length l)%nat -> outcome (f (nth i l dflt)) = Ok (g i)) ->
  outcome (comprehension f l) = Ok (map g (seq 0 (length l))).
Proof.
  induction l as [ | a l IH]; intros g Hg; [ reflexivity | ].
  rewrite outcome_comprehension_cons.
  generalize (Hg O); cbn [nth length]; intros ->; [ | lia ].
  rewrite (IH (fun i => g (S i)))
    by (intros i Hi; apply (Hg (S i)); cbn; lia).
  cbn [length seq map]. now rewrite <- seq_shift, map_map.
Qed.

(** The first exception ends the comprehension and is the one raised. *)
Lemma outcome_comprehension_first_raise (dflt : A) l : forall i e,
  (i < length l)%nat ->
  (forall j, (j < i)%nat -> exists b, outcome (f (nth j l dflt)) = Ok b) ->
  outcome (f (nth i l dflt)) = Raise e ->
  outcome (comprehension f l) = Raise e.
Proof.
  induction l as [ | a l IH]; intros i e Hi Hbefore Hat; [ cbn in Hi; lia | ].
  rewrite outcome_comprehension_cons.
  destruct i as [ | i].
  - cbn in Hat. now rewrite Hat.
  - destruct (Hbefore O) as [b Hb]; [ lia | ]. cbn in Hb. rewrite Hb.
    rewrite (IH i e); [ reflexivity | cbn in Hi; lia | | exact Hat ].
    intros j Hj. apply (Hbefore (S j)). lia.
Qed.

(** Whether a comprehension returns, and the values it returns up to
    their order, do not depend on the order of the list. *)
Lemma returned_comprehension_permutation l l' :
  Permutation l l' ->
  match returned (comprehension f l), returned (comprehension f l') with
  | Some bs, Some bs' => Permutation bs bs'
  | None, None => True
  | _, _ => False
  end.
Proof.
  unfold returned.
  induction 1 as [ | a l l' _ IH | a a' l | l l' l'' _ IH1 _ IH2].
  - cbn. constructor.
  - rewrite !outcome_comprehension_cons.
    destruct (outcome (f a)); [ | exact I ].
    destruct (outcome (comprehension f l)),
             (outcome (comprehension f l')); try easy.
    now constructor.
  - rewrite !outcome_comprehension_cons.
    destruct (outcome (f a)), (outcome (f a')),
             (outcome (comprehension f l)); try easy.
    apply perm_swap.
  - destruct (outcome (comprehension f l)),
             (outcome (comprehension f l')),
             (outcome (comprehension f l'')); try easy.
    now transitivity a0.
Qed.

End Comprehension.

(** The log of the comprehension of the composer: the model is called on
    the pairs in order, up to the first exception. *)
Lemma trace_loglikelihoods model x pairs :
  exists k, (k <= length pairs)%nat /\
    trace (comprehension
             (fun p => loglikelihood model (true_divide x (fst p)) (snd p))
             pairs) =
    map (fun p => CallModel (true_divide x (fst p)) (snd p)) (firstn k pairs).
Proof.
  induction pairs as [ | p pairs [k [Hk IH]]].
  - exists O. split; [ lia | reflexivity ].
  - rewrite trace_comprehension_cons, outcome_loglikelihood,
      trace_loglikelihood.
    destruct (model _ _).
    + exists (S k). split; [ cbn; lia | ].
      cbn [firstn map app]. now rewrite IH.
    + exists 1%nat. split; [ cbn; lia | ]. reflexivity.
Qed.

Lemma filter_model_calls_map {A} (ev : A -> ndarray * R) l :
  filter is_model_call (map (fun a => CallModel (fst (ev a)) (snd (ev a))) l) =
  map (fun a => CallModel (fst (ev a)) (snd (ev a))) l.
Proof.
  induction l as [ | a l IH]; cbn; [ reflexivity | now rewrite IH ].
Qed.

Lemma filter_composer_calls_map {A} (ev : A -> ndarray * R) l :
  filter is_composer_call
    (map (fun a => CallModel (fst (ev a)) (snd (ev a))) l) = [].
Proof.
  induction l as [ | a l IH]; cbn; [ reflexivity | exact IH ].
Qed.

(** ** Arrays and [numpy.sum] *)

Lemma shape_eqb_true s t : shape_eqb s t = true <-> s = t.
Proof.
  unfold shape_eqb. destruct (list_eq_dec Nat.eq_dec s t); split; easy.
Qed.

Lemma well_formed_true_divide x d_i :
  well_formed x -> well_formed (true_divide x d_i).
Proof. unfold well_formed; cbn. now rewrite length_map. Qed.

Lemma well_formed_scalar v : well_formed (scalar v).
Proof. reflexivity. Qed.

Lemma true_divide_one x : true_divide x 1 = x.
Proof.
  destruct x as [s l]; unfold true_divide, map_nd; cbn. f_equal.
  rewrite <- (map_id l) at 2. apply map_ext. intros v. apply Rdiv_1_r.
Qed.

Lemma returns_arrays_gauss_model : returns_arrays gauss_model.
Proof.
  intros v y_i LL Hv [= <-]. unfold well_formed in *; cbn.
  now rewrite length_map.
Qed.

(** The sum of a non-empty list of arrays that all have the shape [s]. *)
Lemma np_sum_axis0_same_shape (LLs : list ndarray) (s : list nat) :
  LLs <> [] ->
  Forall (fun a => shape a = s) LLs ->
  np_sum_axis0 LLs =
  Ok (mk_nd s (fold_left add_data (map data LLs) (repeat 0 (size s)))).
Proof.
  destruct LLs as [ | a rest]; [ easy | ]. intros _ Hs.
  inversion Hs as [ | ? ? Ha Hrest]; subst.
  unfold np_sum_axis0.
  replace (forallb _ rest) with true; [ reflexivity | ].
  symmetry. apply forallb_forall. intros b Hb.
  apply shape_eqb_true. rewrite Forall_forall in Hrest. now apply Hrest.
Qed.

(** ** The likelihood composer *)

(** The value of the composer when the model answers every pair, with
    arrays of one shape. *)
Lemma outcome_likelihood_dilution_positions
  (x : ndarray) (model : calibration_model) (d y : list R)
  (LL : nat -> ndarray) (s : list nat) :
  length d = length y ->
  (1 <= length d)%nat ->
  (forall i, (i < length d)%nat ->
     model (true_divide x (nth i d 0)) (nth i y 0) = Ok (LL i)) ->
  (forall i, (i < length d)%nat -> shape (LL i) = s) ->
  (forall i, (i < length d)%nat -> well_formed (LL i)) ->
  outcome (likelihood_dilution x y d model) =
  Ok (mk_nd s
        (map (fun k =>
                Rtrigo_def.exp
                  (sum_over (length d) (fun i => nth k (data (LL i)) 0)))
           (seq 0 (size s)))).
Proof.
  intros Hlen HN HLL Hshape Hwf.
  rewrite outcome_likelihood_dilution.
  rewrite (outcome_comprehension_positions _ (0, 0) _ LL).
  2:{ intros i Hi. rewrite length_combine, <- Hlen, Nat.min_id in Hi.
      rewrite combine_nth by assumption. cbn [fst snd].
      rewrite outcome_loglikelihood. now apply HLL. }
  rewrite length_combine, <- Hlen, Nat.min_id.
  rewrite (np_sum_axis0_same_shape _ s).
  - rewrite map_map.
    rewrite (fold_add_data_sum_over (fun i => data (LL i)) (size s)).
    + unfold Numpy.exp, map_nd; cbn [shape data]. now rewrite map_map.
    + intros i Hi. rewrite <- (Hshape i Hi). now apply Hwf.
  - destruct (length d); [ lia | easy ].
  - apply Forall_forall. intros a Ha.
    apply in_map_iff in Ha as [i [<- Hi]]. apply in_seq in Hi.
    apply Hshape. lia.
Qed.

(** C1: for index-aligned [d] and [y] of one length [N >= 1], a candidate
    [x] and a model that answers the pair [i] with the array [LL i], all of
    one shape [s], the composer returns the array of shape [s] that holds
    at each position the exponential of the sum over [i] of the
    log-likelihoods [LL i] at that position: a likelihood, not a
    log-likelihood. *)
Theorem likelihood_dilution_exp_of_sum
  (x : ndarray) (model : calibration_model) (d y : list R)
  (LL : nat -> ndarray) (s : list nat) :
  length d = length y ->
  (1 <= length d)%nat ->
  well_formed x ->
  returns_arrays model ->
  (forall i, (i < length d)%nat ->
     model (true_divide x (nth i d 0)) (nth i y 0) = Ok (LL i)) ->
  (forall i, (i < length d)%nat -> shape (LL i) = s) ->
  outcome (likelihood_dilution x y d model) =
  Ok (mk_nd s
        (map (fun k =>
                Rtrigo_def.exp
                  (sum_over (length d) (fun i => nth k (data (LL i)) 0)))
           (seq 0 (size s)))).
Proof.
  intros Hlen HN Hx Hmodel HLL Hshape.
  apply outcome_likelihood_dilution_positions; try assumption.
  intros i Hi.
  apply (Hmodel _ _ _ (well_formed_true_divide x _ Hx) (HLL i Hi)).
Qed.

(** C4: with a single pair the composer returns exactly the exponential
    of what the model answers at [x / d_0] and [y_0], and raises what the
    model raises; with [d = [1]] the model is called on [x] itself. *)
Theorem likelihood_dilution_single_pair
  (x : ndarray) (model : calibration_model) (y_0 : R) :
  well_formed x ->
  returns_arrays model ->
  (forall d_0,
     likelihood_dilution x [y_0] [d_0] model =
     ([CallComposer x [y_0]; CallModel (true_divide x d_0) y_0],
      match model (true_divide x d_0) y_0 with
      | Ok LL => Ok (Numpy.exp LL)
      | Raise e => Raise e
      end)) /\
  likelihood_dilution x [y_0] [1] model =
  ([CallComposer x [y_0]; CallModel x y_0],
   match model x y_0 with
   | Ok LL => Ok (Numpy.exp LL)
   | Raise e => Raise e
   end).
Proof.
  intros Hx Hmodel.
  assert (Hgen : forall d_0,
     likelihood_dilution x [y_0] [d_0] model =
     ([CallComposer x [y_0]; CallModel (true_divide x d_0) y_0],
      match model (true_divide x d_0) y_0 with
      | Ok LL => Ok (Numpy.exp LL)
      | Raise e => Raise e
      end)).
  { intros d_0.
    pose proof (Hmodel (true_divide x d_0) y_0) as Hwf.
    unfold likelihood_dilution, loglikelihood; cbn.
    destruct (model (true_divide x d_0) y_0) as [LL | e]; cbn;
      [ | reflexivity ].
    specialize (Hwf LL (well_formed_true_divide x d_0 Hx) eq_refl).
    unfold well_formed in Hwf. rewrite <- Hwf, add_data_zeros.
    now destruct LL. }
  split; [ exact Hgen | ].
  rewrite (Hgen 1), true_divide_one. reflexivity.
Qed.

(** C8: in the scenario [d = [1, 2]], [y = [5, 5]] with the log-likelihood
    [-(y - x)^2], the composed likelihood at the candidate 10 is
    [exp(-25)]. *)
Theorem likelihood_dilution_scenario :
  outcome (likelihood_dilution (scalar 10) [5; 5] [1; 2] gauss_model) =
  Ok (scalar (Rtrigo_def.exp (-25))).
Proof.
  cbn. unfold Numpy.exp, map_nd, scalar; cbn.
  do 4 f_equal. field.
Qed.

Lemma model_calls_likelihood_dilution x y d model :
  model_calls (likelihood_dilution x y d model) =
  trace (comprehension
           (fun p => loglikelihood model (true_divide x (fst p)) (snd p))
           (combine d y)).
Proof.
  unfold model_calls. rewrite trace_likelihood_dilution. cbn [filter is_model_call].
  destruct (trace_loglikelihoods model x (combine d y)) as [k [_ ->]].
  apply (filter_model_calls_map
           (fun p : R * R => (true_divide x (fst p), snd p))).
Qed.

Lemma composer_calls_likelihood_dilution x y d model :
  composer_calls (likelihood_dilution x y d model) = [CallComposer x y].
Proof.
  unfold composer_calls. rewrite trace_likelihood_dilution.
  cbn [filter is_composer_call]. f_equal.
  destruct (trace_loglikelihoods model x (combine d y)) as [k [_ ->]].
  apply (filter_composer_calls_map
           (fun p : R * R => (true_divide x (fst p), snd p))).
Qed.

Lemma combine_truncated (d y : list R) :
  combine (firstn (Nat.min (length d) (length y)) d)
          (firstn (Nat.min (length d) (length y)) y) = combine d y.
Proof.
  rewrite <- combine_firstn. apply firstn_all2.
  rewrite length_combine. lia.
Qed.

(** C9: when [d] and [y] differ in length the composer does what it does
    on their first [min (length d) (length y)] elements: it returns or
    raises the same, and calls the model on these pairs only, so on fewer
    pairs than the longer list has elements. *)
Theorem likelihood_dilution_unequal_lengths
  (x : ndarray) (model : calibration_model) (d y : list R) :
  length d <> length y ->
  let n := Nat.min (length d) (length y) in
  outcome (likelihood_dilution x y d model) =
    outcome (likelihood_dilution x (firstn n y) (firstn n d) model) /\
  model_calls (likelihood_dilution x y d model) =
    model_calls (likelihood_dilution x (firstn n y) (firstn n d) model) /\
  (length (model_calls (likelihood_dilution x y d model)) <= n)%nat /\
  (n < Nat.max (length d) (length y))%nat.
Proof.
  intros Hneq n. subst n.
  rewrite !outcome_likelihood_dilution, !model_calls_likelihood_dilution.
  rewrite combine_truncated.
  repeat split; [ | lia ].
  destruct (trace_loglikelihoods model x (combine d y)) as [k [Hk ->]].
  rewrite length_map, length_firstn, length_combine in *. lia.
Qed.

(** ** The evaluation-mode adapter *)

Lemma nth_combine_lt (d y : list R) : forall i,
  (i < length (combine d y))%nat ->
  nth i (combine d y) (0, 0) = (nth i d 0, nth i y 0).
Proof.
  revert y; induction d as [ | u d IH]; intros [ | v y] i Hi;
    cbn in Hi; try lia.
  destruct i as [ | i]; [ reflexivity | ].
  cbn. apply IH. lia.
Qed.

Lemma wrap_as_array (m : M ndarray) :
  (r <- m ;; ret (AsArray r)) =
  (trace m,
   match outcome m with
   | Ok r => Ok (AsArray r)
   | Raise e => Raise e
   end).
Proof.
  destruct m as [t [r | e]]; cbn; [ now rewrite app_nil_r | reflexivity ].
Qed.

(** C6: in pointwise mode the wrapper is one call of the composer on the
    given [x] and [y]: the same log, with this one entry into the composer,
    the value of the composer as it is, and no handler: an exception that
    the model raises at some pair, the pairs before it having been
    answered, is the outcome of the wrapper. *)
Theorem likelihood_wrapper_pointwise
  (model : calibration_model) (d : list R) (x : ndarray) (y : list R) :
  likelihood_wrapper model d x y false =
    (trace (likelihood_dilution x y d model),
     match outcome (likelihood_dilution x y d model) with
     | Ok r => Ok (AsArray r)
     | Raise e => Raise e
     end) /\
  composer_calls (likelihood_wrapper model d x y false) = [CallComposer x y] /\
  (forall i e,
     (i < length (combine d y))%nat ->
     (forall j, (j < i)%nat ->
        exists LL, model (true_divide x (nth j d 0)) (nth j y 0) = Ok LL) ->
     model (true_divide x (nth i d 0)) (nth i y 0) = Raise e ->
     outcome (likelihood_wrapper model d x y false) = Raise e).
Proof.
  unfold likelihood_wrapper. rewrite wrap_as_array.
  split; [ reflexivity | split ].
  - apply composer_calls_likelihood_dilution.
  - intros i e Hi Hbefore Hat. cbn [outcome snd].
    rewrite outcome_likelihood_dilution.
    rewrite (outcome_comprehension_first_raise _ (0, 0) _ i e);
      [ reflexivity | assumption | | ].
    + intros j Hj. rewrite nth_combine_lt by lia. cbn [fst snd].
      rewrite outcome_loglikelihood. now apply Hbefore.
    + rewrite nth_combine_lt by lia. cbn [fst snd].
      now rewrite outcome_loglikelihood.
Qed.

(** C3: in scan mode, when the vectorized attempt raises, whatever the
    exception, the wrapper goes on with the loop over the candidates and
    its outcome is the outcome of the loop; the exception of the attempt
    is dropped, and when every candidate evaluates the wrapper returns the
    list of the values. *)
Theorem likelihood_wrapper_scan_fallback
  (model : calibration_model) (d : list R) (x : ndarray) (y : list R)
  (t : list event) (e : exn) :
  likelihood_dilution (expand_last x) y d model = (t, Raise e) ->
  likelihood_wrapper model d x y true =
    (t ++ trace (fallback_loop model d x y),
     outcome (fallback_loop model d x y)) /\
  (forall xs rs,
     iterate x = Ok xs ->
     Forall2 (fun xi r => outcome (likelihood_dilution xi y d model) = Ok r)
       xs rs ->
     outcome (likelihood_wrapper model d x y true) = Ok (AsList rs)).
Proof.
  intros Hattempt.
  assert (Hw : likelihood_wrapper model d x y true =
               (t ++ trace (fallback_loop model d x y),
                outcome (fallback_loop model d x y))).
  { unfold likelihood_wrapper. rewrite wrap_as_array, Hattempt.
    cbn [trace outcome fst snd try_except].
    now destruct (fallback_loop model d x y). }
  split; [ exact Hw | ].
  intros xs rs Hxs Hrs. rewrite Hw. cbn [outcome snd].
  unfold fallback_loop. rewrite Hxs.
  rewrite outcome_bind. cbn [lift outcome snd].
  rewrite outcome_bind.
  now rewrite (outcome_comprehension_Forall2 _ _ _ Hrs).
Qed.

(** With no pair the vectorized attempt cannot raise: scan mode then
    returns the one scalar 1 and not a value per candidate. *)
Remark likelihood_wrapper_scan_no_pairs
  (model : calibration_model) (x : ndarray) :
  likelihood_wrapper model [] x [] true =
  ([CallComposer (expand_last x) []], Ok (AsArray (scalar 1))).
Proof.
  unfold likelihood_wrapper, likelihood_dilution; cbn.
  unfold Numpy.exp, map_nd, scalar; cbn.
  now rewrite exp_0.
Qed.

(** ** The posterior driver *)

(** C7: the driver calls the external routine once, on the wrapper closed
    over [model] and [d] and on the caller's [y], [lower], [upper], [steps]
    and [ci_prob] (or their defaults 300 and 1 when left out), and what the
    routine returns or raises, with its log, is what the driver returns or
    raises. *)
Theorem infer_independent_delegates
  (ContinuousUnivariateInference : Type)
  (calibr8_infer_independent : posterior_routine ContinuousUnivariateInference)
  (model : calibration_model) (d y : list R) (lower upper : R)
  (steps : option Z) (ci_prob : option R) :
  infer_independent ContinuousUnivariateInference calibr8_infer_independent
    model d y lower upper steps ci_prob =
  calibr8_infer_independent (likelihood_wrapper model d) y lower upper
    (match steps with Some n => n | None => 300%Z end)
    (match ci_prob with Some p => p | None => 1 end).
Proof.
  unfold infer_independent. rewrite bind_ret_r. reflexivity.
Qed.

(** ** The two scan paths *)

Lemma sum_over_ext (n : nat) (f g : nat -> R) :
  (forall i, (i < n)%nat -> f i = g i) -> sum_over n f = sum_over n g.
Proof.
  induction n as [ | n IH]; intros Hfg; cbn; [ reflexivity | ].
  rewrite IH, Hfg by (intros; try apply Hfg; lia). reflexivity.
Qed.

Lemma chunks_of_one (xs : list R) :
  chunks (length xs) 1 xs = map (fun v => [v]) xs.
Proof.
  induction xs as [ | v xs IH]; cbn; [ reflexivity | now rewrite IH ].
Qed.

Lemma iterate_vector (xs : list R) :
  iterate (vector xs) = Ok (map scalar xs).
Proof.
  unfold iterate, vector; cbn [shape data size fold_right].
  now rewrite chunks_of_one, map_map.
Qed.

Lemma expand_last_vector (xs : list R) :
  expand_last (vector xs) = mk_nd [length xs; 1%nat] xs.
Proof. reflexivity. Qed.

Section ScanPaths.

(** The pointwise log-density both models compute. *)
Variable f : R -> R -> R.
Variables d y : list R.
Hypothesis aligned : length d = length y.
Hypothesis some_pair : (1 <= length d)%nat.

(** One candidate at a time, with a model that answers scalars. *)
Lemma outcome_likelihood_dilution_scalar (model : calibration_model) (v : R) :
  (forall u y_i, model (scalar u) y_i = Ok (scalar (f u y_i))) ->
  outcome (likelihood_dilution (scalar v) y d model) =
  Ok (scalar (joint_likelihood f d y v)).
Proof.
  intros Hscalar.
  rewrite (outcome_likelihood_dilution_positions _ _ _ _
             (fun i => scalar (f (v / nth i d 0) (nth i y 0))) []);
    try easy.
  intros i _. apply Hscalar.
Qed.

(** All candidates at once, with a model that broadcasts. *)
Lemma outcome_likelihood_dilution_batch
  (model : calibration_model) (batch_shape : nat -> list nat)
  (xs : list R) :
  (forall M, size (batch_shape M) = M) ->
  (forall l y_i,
     model (mk_nd [length l; 1%nat] l) y_i =
     Ok (mk_nd (batch_shape (length l)) (map (fun u => f u y_i) l))) ->
  outcome (likelihood_dilution (mk_nd [length xs; 1%nat] xs) y d model) =
  Ok (mk_nd (batch_shape (length xs)) (map (joint_likelihood f d y) xs)).
Proof.
  intros Hsize Hbatch.
  rewrite (outcome_likelihood_dilution_positions _ _ _ _
             (fun i => mk_nd (batch_shape (length xs))
                         (map (fun u => f (u / nth i d 0) (nth i y 0)) xs))
             (batch_shape (length xs))); try easy.
  - f_equal. f_equal. rewrite Hsize.
    apply nth_ext with (d := 0) (d' := 0).
    + now rewrite !length_map, length_seq.
    + intros k Hk. rewrite length_map, length_seq in Hk.
      rewrite nth_map_seq, nth_map_lt by assumption.
      unfold joint_likelihood. f_equal.
      apply sum_over_ext. intros i _. cbn [data].
      now rewrite nth_map_lt.
  - intros i _. unfold true_divide, map_nd; cbn [shape data].
    rewrite <- (length_map (fun u => u / nth i d 0) xs) at 1.
    rewrite Hbatch, length_map, map_map. reflexivity.
  - intros i _. unfold well_formed; cbn [shape data].
    now rewrite length_map, Hsize.
Qed.

(** C2: in scan mode, over a vector [xs] of candidates, the loop that a
    model falls back to when it raises on the batched shape and the
    single vectorized call of a model that broadcasts return the same
    values, candidate by candidate: for each candidate its joint
    likelihood over all the pairs.  Both models compute the pointwise
    log-density [f]. *)
Theorem likelihood_wrapper_scan_paths_agree
  (model_loop model_batch : calibration_model)
  (batch_shape : nat -> list nat) (xs : list R) :
  (forall u y_i, model_loop (scalar u) y_i = Ok (scalar (f u y_i))) ->
  (forall l y_i,
     exists e, model_loop (mk_nd [length l; 1%nat] l) y_i = Raise e) ->
  (forall M, size (batch_shape M) = M) ->
  (forall l y_i,
     model_batch (mk_nd [length l; 1%nat] l) y_i =
     Ok (mk_nd (batch_shape (length l)) (map (fun u => f u y_i) l))) ->
  option_map values
    (returned (likelihood_wrapper model_loop d (vector xs) y true)) =
    Some (map (joint_likelihood f d y) xs) /\
  option_map values
    (returned (likelihood_wrapper model_batch d (vector xs) y true)) =
    Some (map (joint_likelihood f d y) xs).
Proof.
  intros Hscalar Hraise Hsize Hbatch. split.
  - (* the attempt raises at the first pair *)
    destruct (likelihood_dilution (expand_last (vector xs)) y d model_loop)
      as [t [r | e]] eqn:Hattempt.
    { exfalso.
      assert (Ho : outcome (likelihood_dilution (expand_last (vector xs))
                              y d model_loop) = Ok r)
        by now rewrite Hattempt.
      rewrite outcome_likelihood_dilution in Ho.
      destruct d as [ | d_0 d']; [ cbn in some_pair; lia | ].
      destruct y as [ | y_0 y']; [ cbn in aligned; lia | ].
      cbn [combine] in Ho. rewrite outcome_comprehension_cons in Ho.
      rewrite outcome_loglikelihood in Ho.
      rewrite expand_last_vector in Ho.
      unfold true_divide, map_nd in Ho; cbn [shape data fst snd] in Ho.
      rewrite <- (length_map (fun u => u / d_0) xs) in Ho at 1.
      destruct (Hraise (map (fun u => u / d_0) xs) y_0) as [e He].
      now rewrite He in Ho. }
    unfold likelihood_wrapper. rewrite wrap_as_array, Hattempt.
    cbn [trace outcome fst snd try_except].
    unfold returned, fallback_loop.
    rewrite iterate_vector.
    assert (Hloop : outcome (comprehension
               (fun xi => likelihood_dilution xi y d model_loop)
               (map scalar xs)) =
             Ok (map (fun v => scalar (joint_likelihood f d y v)) xs)).
    { apply outcome_comprehension_Forall2.
      clear Hattempt. induction xs as [ | v l IH]; constructor.
      - now apply outcome_likelihood_dilution_scalar.
      - exact IH. }
    destruct (bind (lift (Ok (map scalar xs))) _) as [t' o] eqn:Hfb.
    assert (Ho : o = Ok (AsList
              (map (fun v => scalar (joint_likelihood f d y v)) xs))).
    { change o with (outcome (t', o)). rewrite <- Hfb.
      rewrite outcome_bind; cbn [lift outcome snd].
      rewrite outcome_bind. fold (@outcome (list ndarray)).
      now rewrite Hloop. }
    subst o. cbn. f_equal.
    clear. induction xs as [ | v l IH]; cbn; [ reflexivity | now rewrite IH ].
  - unfold likelihood_wrapper. rewrite wrap_as_array, expand_last_vector.
    unfold returned.
    pose proof (outcome_likelihood_dilution_batch
                  model_batch batch_shape xs Hsize Hbatch) as Ho.
    destruct (likelihood_dilution _ y d model_batch) as [t o].
    cbn [outcome snd] in Ho. subst o. reflexivity.
Qed.

End ScanPaths.

(** ** The theorems at the scenario of the specification *)

Lemma likelihood_dilution_exp_of_sum_witness :
  outcome (likelihood_dilution (scalar 10) [5; 5] [1; 2] gauss_model) =
  Ok (mk_nd []
        (map (fun k =>
                Rtrigo_def.exp
                  (sum_over 2
                     (fun i =>
                        nth k
                          (data
                             (map_nd (fun v => - (nth i [5; 5] 0 - v) ^ 2)
                                (true_divide (scalar 10) (nth i [1; 2] 0))))
                          0)))
           (seq 0 1))).
Proof.
  apply (likelihood_dilution_exp_of_sum (scalar 10) gauss_model [1; 2] [5; 5]
           (fun i => map_nd (fun v => - (nth i [5; 5] 0 - v) ^ 2)
                       (true_divide (scalar 10) (nth i [1; 2] 0)))
           []).
  - reflexivity.
  - cbn; lia.
  - reflexivity.
  - exact returns_arrays_gauss_model.
  - intros i _. reflexivity.
  - intros i _. reflexivity.
Defined.

Lemma likelihood_wrapper_scan_paths_agree_witness :
  option_map values
    (returned (likelihood_wrapper gauss_scalar_model [1; 2]
                 (vector [0; 5; 10; 15; 20]) [5; 5] true)) =
    Some (map (joint_likelihood (fun u y_i => - (y_i - u) ^ 2) [1; 2] [5; 5])
            [0; 5; 10; 15; 20]) /\
  option_map values
    (returned (likelihood_wrapper gauss_model [1; 2]
                 (vector [0; 5; 10; 15; 20]) [5; 5] true)) =
    Some (map (joint_likelihood (fun u y_i => - (y_i - u) ^ 2) [1; 2] [5; 5])
            [0; 5; 10; 15; 20]).
Proof.
  apply (likelihood_wrapper_scan_paths_agree
           (fun u y_i => - (y_i - u) ^ 2) [1; 2] [5; 5]
           eq_refl (le_S 1 1 (le_n 1))
           gauss_scalar_model gauss_model
           (fun M => [M; 1%nat]) [0; 5; 10; 15; 20]).
  - intros u y_i. reflexivity.
  - intros l y_i. exists "ValueError"%string. reflexivity.
  - intros M. cbn. lia.
  - intros l y_i. reflexivity.
Defined.

Lemma likelihood_wrapper_scan_fallback_witness :
  likelihood_wrapper gauss_scalar_model [1; 2] (vector [0; 10]) [5; 5] true =
    (trace (likelihood_dilution (expand_last (vector [0; 10])) [5; 5] [1; 2]
              gauss_scalar_model)
     ++ trace (fallback_loop gauss_scalar_model [1; 2] (vector [0; 10]) [5; 5]),
     outcome (fallback_loop gauss_scalar_model [1; 2] (vector [0; 10]) [5; 5]))
  /\
  (forall xs rs,
     iterate (vector [0; 10]) = Ok xs ->
     Forall2
       (fun xi r =>
          outcome (likelihood_dilution xi [5; 5] [1; 2] gauss_scalar_model) =
          Ok r) xs rs ->
     outcome (likelihood_wrapper gauss_scalar_model [1; 2] (vector [0; 10])
                [5; 5] true) = Ok (AsList rs)).
Proof.
  apply (likelihood_wrapper_scan_fallback gauss_scalar_model [1; 2]
           (vector [0; 10]) [5; 5]
           (trace (likelihood_dilution (expand_last (vector [0; 10])) [5; 5]
                     [1; 2] gauss_scalar_model))
           "ValueError"%string).
  reflexivity.
Defined.

Lemma likelihood_dilution_single_pair_witness :
  (forall d_0,
     likelihood_dilution (scalar 10) [5] [d_0] gauss_model =
     ([CallComposer (scalar 10) [5];
       CallModel (true_divide (scalar 10) d_0) 5],
      match gauss_model (true_divide (scalar 10) d_0) 5 with
      | Ok LL => Ok (Numpy.exp LL)
      | Raise e => Raise e
      end)) /\
  likelihood_dilution (scalar 10) [5] [1] gauss_model =
  ([CallComposer (scalar 10) [5]; CallModel (scalar 10) 5],
   match gauss_model (scalar 10) 5 with
   | Ok LL => Ok (Numpy.exp LL)
   | Raise e => Raise e
   end).
Proof.
  apply (likelihood_dilution_single_pair (scalar 10) gauss_model 5).
  - reflexivity.
  - exact returns_arrays_gauss_model.
Defined.

Lemma likelihood_dilution_unequal_lengths_witness :
  outcome (likelihood_dilution (scalar 10) [5; 5] [1; 2; 3] gauss_model) =
    outcome (likelihood_dilution (scalar 10) [5; 5] [1; 2] gauss_model) /\
  model_calls (likelihood_dilution (scalar 10) [5; 5] [1; 2; 3] gauss_model) =
    model_calls (likelihood_dilution (scalar 10) [5; 5] [1; 2] gauss_model) /\
  Nat.le
    (length (model_calls
               (likelihood_dilution (scalar 10) [5; 5] [1; 2; 3] gauss_model)))
    2 /\
  (2 < 3)%nat.
Proof.
  apply (likelihood_dilution_unequal_lengths (scalar 10) gauss_model
           [1; 2; 3] [5; 5]).
  cbn. lia.
Defined.

Lemma likelihood_wrapper_pointwise_witness :
  outcome (likelihood_wrapper gauss_scalar_model [1; 2] (vector [0; 10])
             [5; 5] false) = Raise "ValueError"%string.
Proof.
  apply (proj2 (proj2 (likelihood_wrapper_pointwise gauss_scalar_model [1; 2]
                         (vector [0; 10]) [5; 5]))
           O "ValueError"%string).
  - cbn; lia.
  - intros j Hj. inversion Hj.
  - reflexivity.
Defined.

(** ** The calls of the composer *)

Lemma outcome_comprehension_inv {A B} (f : A -> M B) l : forall bs,
  outcome (comprehension f l) = Ok bs ->
  Forall2 (fun a b => outcome (f a) = Ok b) l bs.
Proof.
  induction l as [ | a l IH]; intros bs Hbs.
  - cbn in Hbs. injection Hbs as <-. constructor.
  - rewrite outcome_comprehension_cons in Hbs.
    destruct (outcome (f a)) as [b | e] eqn:Ha; [ | discriminate ].
    destruct (outcome (comprehension f l)) as [bs' | e]; [ | discriminate ].
    injection Hbs as <-. constructor; [ exact Ha | now apply IH ].
Qed.

Lemma trace_loglikelihoods_returned model x pairs LLs :
  outcome (comprehension
             (fun p => loglikelihood model (true_divide x (fst p)) (snd p))
             pairs) = Ok LLs ->
  trace (comprehension
           (fun p => loglikelihood model (true_divide x (fst p)) (snd p))
           pairs) = map (model_call_on x) pairs.
Proof.
  revert LLs; induction pairs as [ | p pairs IH]; intros LLs HLLs;
    [ reflexivity | ].
  rewrite outcome_comprehension_cons in HLLs.
  rewrite trace_comprehension_cons.
  destruct (outcome (loglikelihood model _ _)); [ | discriminate ].
  destruct (outcome (comprehension _ pairs)) as [LLs' | e] eqn:Hrest;
    [ | discriminate ].
  rewrite trace_loglikelihood, (IH LLs') by reflexivity. reflexivity.
Qed.

Lemma trace_loglikelihoods_raised model x pairs : forall i e,
  (i < length pairs)%nat ->
  (forall j, (j < i)%nat ->
     exists LL,
       model (true_divide x (fst (nth j pairs (0, 0))))
         (snd (nth j pairs (0, 0))) = Ok LL) ->
  model (true_divide x (fst (nth i pairs (0, 0))))
    (snd (nth i pairs (0, 0))) = Raise e ->
  trace (comprehension
           (fun p => loglikelihood model (true_divide x (fst p)) (snd p))
           pairs) = map (model_call_on x) (firstn (S i) pairs).
Proof.
  induction pairs as [ | p pairs IH]; intros i e Hi Hbefore Hat;
    [ cbn in Hi; lia | ].
  rewrite trace_comprehension_cons, outcome_loglikelihood,
    trace_loglikelihood.
  destruct i as [ | i].
  - cbn [nth] in Hat. rewrite Hat. reflexivity.
  - destruct (Hbefore O) as [LL HLL]; [ lia | ]. cbn [nth] in HLL.
    rewrite HLL. rewrite firstn_cons. cbn [map app]. f_equal.
    apply (IH i e); [ cbn in Hi; lia | | exact Hat ].
    intros j Hj. apply (Hbefore (S j)). lia.
Qed.

(** X1: when the model raises at a pair, the pairs before it having been
    answered, the composer raises that exception and has called the model
    on the pairs up to this one and on no later pair. *)
Theorem likelihood_dilution_stops_at_exception
  (x : ndarray) (model : calibration_model) (d y : list R)
  (i : nat) (e : exn) :
  (i < length (combine d y))%nat ->
  (forall j, (j < i)%nat ->
     exists LL, model (true_divide x (nth j d 0)) (nth j y 0) = Ok LL) ->
  model (true_divide x (nth i d 0)) (nth i y 0) = Raise e ->
  outcome (likelihood_dilution x y d model) = Raise e /\
  model_calls (likelihood_dilution x y d model) =
    map (model_call_on x) (firstn (S i) (combine d y)).
Proof.
  intros Hi Hbefore Hat. split.
  - rewrite outcome_likelihood_dilution.
    rewrite (outcome_comprehension_first_raise _ (0, 0) _ i e);
      [ reflexivity | assumption | | ].
    + intros j Hj. rewrite nth_combine_lt by lia. cbn [fst snd].
      rewrite outcome_loglikelihood. now apply Hbefore.
    + rewrite nth_combine_lt by lia. cbn [fst snd].
      now rewrite outcome_loglikelihood.
  - rewrite model_calls_likelihood_dilution.
    apply (trace_loglikelihoods_raised model x (combine d y) i e).
    + assumption.
    + intros j Hj. rewrite nth_combine_lt by lia. now apply Hbefore.
    + now rewrite nth_combine_lt by lia.
Qed.

Lemma model_calls_of_returned_composer
  (x : ndarray) (model : calibration_model) (d y : list R) (a : ndarray) :
  outcome (likelihood_dilution x y d model) = Ok a ->
  model_calls (likelihood_dilution x y d model) =
    map (model_call_on x) (combine d y).
Proof.
  intros Ha. rewrite model_calls_likelihood_dilution.
  rewrite outcome_likelihood_dilution in Ha.
  destruct (outcome (comprehension _ (combine d y))) as [LLs | e] eqn:HLLs;
    [ | discriminate ].
  now apply (trace_loglikelihoods_returned model x _ LLs).
Qed.

(** X2: when the composer returns, it has called the model exactly once
    on every pair of [zip(d, y)], in the order of the pairs, at [x / d_i]
    and [y_i]. *)
Theorem likelihood_dilution_calls_each_pair_once
  (x : ndarray) (model : calibration_model) (d y : list R) (a : ndarray) :
  outcome (likelihood_dilution x y d model) = Ok a ->
  model_calls (likelihood_dilution x y d model) =
    map (model_call_on x) (combine d y).
Proof. apply model_calls_of_returned_composer. Qed.

(** ** What the composer keeps *)

Lemma well_formed_exp a : well_formed a -> well_formed (Numpy.exp a).
Proof. unfold well_formed; cbn. now rewrite length_map. Qed.

Lemma np_sum_axis0_inv a rest s :
  np_sum_axis0 (a :: rest) = Ok s ->
  Forall (fun b => shape b = shape a) (a :: rest) /\
  s = mk_nd (shape a)
        (fold_left add_data (map data (a :: rest))
           (repeat 0 (size (shape a)))).
Proof.
  unfold np_sum_axis0.
  destruct (forallb _ rest) eqn:Hall; [ | discriminate ].
  intros [= <-]. split; [ | reflexivity ].
  constructor; [ reflexivity | ].
  apply Forall_forall. intros b Hb. apply shape_eqb_true.
  rewrite forallb_forall in Hall. now apply Hall.
Qed.

Lemma rows_of_one_shape (LLs : list ndarray) (s : list nat) :
  Forall well_formed LLs ->
  Forall (fun b => shape b = s) LLs ->
  Forall (fun r => length r = size s) (map data LLs).
Proof.
  intros Hwf Hs. apply Forall_forall. intros r Hr.
  apply in_map_iff in Hr as [b [<- Hb]].
  rewrite Forall_forall in Hwf, Hs.
  rewrite <- (Hs b Hb). now apply Hwf.
Qed.

(** [numpy.sum] of arrays is an array. *)
Lemma np_sum_axis0_well_formed (LLs : list ndarray) (s : ndarray) :
  Forall well_formed LLs -> np_sum_axis0 LLs = Ok s -> well_formed s.
Proof.
  intros Hwf Hs. destruct LLs as [ | a rest].
  - injection Hs as <-. reflexivity.
  - apply np_sum_axis0_inv in Hs as [Hshape ->].
    unfold well_formed; cbn [shape data].
    apply length_fold_add_data; [ apply repeat_length | ].
    now apply rows_of_one_shape.
Qed.

Lemma answers_well_formed (x : ndarray) (model : calibration_model) pairs LLs :
  well_formed x ->
  returns_arrays model ->
  outcome (comprehension
             (fun p => loglikelihood model (true_divide x (fst p)) (snd p))
             pairs) = Ok LLs ->
  Forall well_formed LLs.
Proof.
  intros Hx Hmodel HLLs. apply outcome_comprehension_inv in HLLs.
  induction HLLs as [ | p LL pairs LLs Hp _ IH]; constructor; [ | exact IH ].
  rewrite outcome_loglikelihood in Hp.
  apply (Hmodel _ _ _ (well_formed_true_divide x _ Hx) Hp).
Qed.

(** X3: on an array [x] and with a model that hands back arrays, what the
    composer returns is an array: its buffer has as many elements as its
    shape says. *)
Theorem likelihood_dilution_well_formed
  (x : ndarray) (model : calibration_model) (d y : list R) (a : ndarray) :
  well_formed x ->
  returns_arrays model ->
  outcome (likelihood_dilution x y d model) = Ok a ->
  well_formed a.
Proof.
  intros Hx Hmodel Ha.
  rewrite outcome_likelihood_dilution in Ha.
  destruct (outcome (comprehension _ (combine d y))) as [LLs | e] eqn:HLLs;
    [ | discriminate ].
  destruct (np_sum_axis0 LLs) as [s | e] eqn:Hs; [ | discriminate ].
  injection Ha as <-. apply well_formed_exp.
  apply (np_sum_axis0_well_formed LLs); [ | assumption ].
  now apply (answers_well_formed x model (combine d y)).
Qed.

(** ** Elementwise models and the two modes *)

Lemma size_app_one (s : list nat) : size (s ++ [1%nat]) = size s.
Proof.
  induction s as [ | n s IH]; cbn; [ reflexivity | ].
  unfold size in IH. now rewrite IH.
Qed.

Lemma well_formed_expand_last x :
  well_formed x -> well_formed (expand_last x).
Proof. unfold well_formed; cbn. now rewrite size_app_one. Qed.

Lemma outcome_likelihood_dilution_elementwise
  (f : R -> R -> R) (model : calibration_model) (x : ndarray) (d y : list R) :
  elementwise f model ->
  length d = length y ->
  (1 <= length d)%nat ->
  well_formed x ->
  outcome (likelihood_dilution x y d model) =
  Ok (mk_nd (shape x) (map (joint_likelihood f d y) (data x))).
Proof.
  intros Hf Hlen HN Hx.
  rewrite (outcome_likelihood_dilution_positions x model d y
             (fun i => map_nd (fun u => f u (nth i y 0))
                         (true_divide x (nth i d 0)))
             (shape x)); try easy.
  - f_equal. f_equal. rewrite <- Hx.
    apply nth_ext with (d := 0) (d' := 0).
    + now rewrite !length_map, length_seq.
    + intros k Hk. rewrite length_map, length_seq in Hk.
      rewrite nth_map_seq, nth_map_lt by assumption.
      unfold joint_likelihood. f_equal.
      apply sum_over_ext. intros i _.
      unfold true_divide, map_nd; cbn [shape data].
      rewrite map_map. now rewrite nth_map_lt.
  - intros i _. unfold well_formed, true_divide, map_nd; cbn [shape data].
    now rewrite !length_map.
Qed.

(** X5: with a model that evaluates a pointwise log-density [f] on every
    element of its argument, and [N >= 1] aligned pairs, the composer
    returns an array of the shape of [x] that holds, for every element of
    [x], the joint likelihood of that element over all the pairs: every
    element meets every pair. *)
Theorem likelihood_dilution_elementwise
  (f : R -> R -> R) (model : calibration_model) (x : ndarray) (d y : list R) :
  elementwise f model ->
  length d = length y ->
  (1 <= length d)%nat ->
  well_formed x ->
  outcome (likelihood_dilution x y d model) =
  Ok (mk_nd (shape x) (map (joint_likelihood f d y) (data x))).
Proof. apply outcome_likelihood_dilution_elementwise. Qed.

(** X6: with such a model, scan mode and pointwise mode return the same
    values on the same [x]; the array of scan mode has one more, trailing,
    axis of length one. *)
Theorem likelihood_wrapper_modes_elementwise
  (f : R -> R -> R) (model : calibration_model) (x : ndarray) (d y : list R) :
  elementwise f model ->
  length d = length y ->
  (1 <= length d)%nat ->
  well_formed x ->
  outcome (likelihood_wrapper model d x y false) =
    Ok (AsArray (mk_nd (shape x) (map (joint_likelihood f d y) (data x)))) /\
  outcome (likelihood_wrapper model d x y true) =
    Ok (AsArray (mk_nd (shape x ++ [1%nat])
                   (map (joint_likelihood f d y) (data x)))).
Proof.
  intros Hf Hlen HN Hx.
  pose proof (outcome_likelihood_dilution_elementwise f model x d y
                Hf Hlen HN Hx) as Hpoint.
  pose proof (outcome_likelihood_dilution_elementwise f model (expand_last x)
                d y Hf Hlen HN (well_formed_expand_last x Hx)) as Hscan.
  unfold likelihood_wrapper. rewrite !wrap_as_array.
  split.
  - cbn [outcome snd]. now rewrite Hpoint.
  - destruct (likelihood_dilution (expand_last x) y d model) as [t o].
    cbn [outcome snd] in Hscan. subst o. reflexivity.
Qed.

(** ** Scan mode: the attempt and the loop *)

Lemma length_chunks (n k : nat) : forall l, length (chunks n k l) = n.
Proof.
  induction n as [ | n IH]; intros l; cbn; [ reflexivity | now rewrite IH ].
Qed.

Lemma scan_after_exception model d x y t e :
  likelihood_dilution (expand_last x) y d model = (t, Raise e) ->
  likelihood_wrapper model d x y true =
  (t ++ trace (fallback_loop model d x y),
   outcome (fallback_loop model d x y)).
Proof.
  intros Hattempt.
  unfold likelihood_wrapper. rewrite wrap_as_array, Hattempt.
  cbn [trace outcome fst snd try_except].
  now destruct (fallback_loop model d x y).
Qed.

Lemma outcome_fallback_loop model d x y :
  outcome (fallback_loop model d x y) =
  match iterate x with
  | Ok xs =>
      match outcome (comprehension
                       (fun xi => likelihood_dilution xi y d model) xs) with
      | Ok rs => Ok (AsList rs)
      | Raise e => Raise e
      end
  | Raise e => Raise e
  end.
Proof.
  unfold fallback_loop. rewrite outcome_bind; cbn [lift outcome snd].
  destruct (iterate x) as [xs | e]; [ | reflexivity ].
  rewrite outcome_bind.
  now destruct (outcome (comprehension _ xs)).
Qed.

Lemma trace_fallback_loop model d x y xs :
  iterate x = Ok xs ->
  trace (fallback_loop model d x y) =
  trace (comprehension (fun xi => likelihood_dilution xi y d model) xs).
Proof.
  intros Hxs. unfold fallback_loop. rewrite Hxs.
  rewrite trace_bind; cbn [lift outcome snd trace fst app].
  rewrite trace_bind.
  destruct (outcome (comprehension _ xs)); cbn; now rewrite ?app_nil_r.
Qed.

(** X7: scan mode on a 0-d candidate.  The attempt is made on the array
    of shape [(1,)]; when it raises, the loop cannot iterate over [x], and
    the wrapper raises [TypeError], whatever the exception of the attempt
    was, with no further call. *)
Theorem likelihood_wrapper_scan_scalar
  (model : calibration_model) (d : list R) (x : ndarray) (y : list R)
  (t : list event) (e : exn) :
  shape x = [] ->
  likelihood_dilution (expand_last x) y d model = (t, Raise e) ->
  likelihood_wrapper model d x y true = (t, Raise "TypeError"%string).
Proof.
  intros Hshape Hattempt.
  rewrite (scan_after_exception _ _ _ _ _ _ Hattempt).
  unfold fallback_loop, iterate. rewrite Hshape. cbn.
  now rewrite app_nil_r.
Qed.

(** X8: when the vectorized attempt returns, scan mode returns its array
    and is over: the composer was entered once, on [x[..., None]], and the
    model was called once per pair, however many candidates [x] holds. *)
Theorem likelihood_wrapper_scan_vectorized
  (model : calibration_model) (d : list R) (x : ndarray) (y : list R)
  (r : ndarray) :
  outcome (likelihood_dilution (expand_last x) y d model) = Ok r ->
  outcome (likelihood_wrapper model d x y true) = Ok (AsArray r) /\
  composer_calls (likelihood_wrapper model d x y true) =
    [CallComposer (expand_last x) y] /\
  model_calls (likelihood_wrapper model d x y true) =
    map (model_call_on (expand_last x)) (combine d y).
Proof.
  intros Hr.
  assert (Hw : likelihood_wrapper model d x y true =
               (trace (likelihood_dilution (expand_last x) y d model),
                Ok (AsArray r))).
  { unfold likelihood_wrapper. rewrite wrap_as_array, Hr. reflexivity. }
  rewrite Hw. split; [ reflexivity | split ].
  - apply composer_calls_likelihood_dilution.
  - apply (model_calls_of_returned_composer _ _ _ _ _ Hr).
Qed.

Section FallbackLoop.

Variable model : calibration_model.
Variables d y : list R.

Lemma filter_composer_calls_loop (cands rs : list ndarray) :
  Forall2 (fun xi r => outcome (likelihood_dilution xi y d model) = Ok r)
    cands rs ->
  filter is_composer_call
    (trace (comprehension (fun xi => likelihood_dilution xi y d model) cands))
  = map (fun xi => CallComposer xi y) cands.
Proof.
  induction 1 as [ | xi r cands rs Hr _ IH]; [ reflexivity | ].
  rewrite trace_comprehension_cons, Hr, filter_app, IH.
  change (filter is_composer_call (trace (likelihood_dilution xi y d model)))
    with (composer_calls (likelihood_dilution xi y d model)).
  now rewrite composer_calls_likelihood_dilution.
Qed.

Lemma filter_model_calls_loop (cands rs : list ndarray) :
  Forall2 (fun xi r => outcome (likelihood_dilution xi y d model) = Ok r)
    cands rs ->
  filter is_model_call
    (trace (comprehension (fun xi => likelihood_dilution xi y d model) cands))
  = flat_map (fun xi => map (model_call_on xi) (combine d y)) cands.
Proof.
  induction 1 as [ | xi r cands rs Hr _ IH]; [ reflexivity | ].
  rewrite trace_comprehension_cons, Hr, filter_app, IH.
  change (filter is_model_call (trace (likelihood_dilution xi y d model)))
    with (model_calls (likelihood_dilution xi y d model)).
  now rewrite (model_calls_of_returned_composer _ _ _ _ _ Hr).
Qed.

Lemma filter_composer_calls_loop_raised (cands : list ndarray) : forall j e,
  (j < length cands)%nat ->
  (forall k, (k < j)%nat ->
     exists r,
       outcome (likelihood_dilution (nth k cands (scalar 0)) y d model)
       = Ok r) ->
  outcome (likelihood_dilution (nth j cands (scalar 0)) y d model) = Raise e ->
  filter is_composer_call
    (trace (comprehension (fun xi => likelihood_dilution xi y d model) cands))
  = map (fun xi => CallComposer xi y) (firstn (S j) cands).
Proof.
  induction cands as [ | xi cands IH]; intros j e Hj Hbefore Hat;
    [ cbn in Hj; lia | ].
  rewrite trace_comprehension_cons.
  destruct j as [ | j].
  - cbn [nth] in Hat. rewrite Hat.
    change (filter is_composer_call (trace (likelihood_dilution xi y d model)))
      with (composer_calls (likelihood_dilution xi y d model)).
    now rewrite composer_calls_likelihood_dilution.
  - destruct (Hbefore O) as [r Hr]; [ lia | ]. cbn [nth] in Hr.
    rewrite Hr, filter_app.
    change (filter is_composer_call (trace (likelihood_dilution xi y d model)))
      with (composer_calls (likelihood_dilution xi y d model)).
    rewrite composer_calls_likelihood_dilution, firstn_cons.
    cbn [map app]. f_equal.
    apply (IH j e); [ cbn in Hj; lia | | exact Hat ].
    intros k Hk. apply (Hbefore (S k)). lia.
Qed.

(** X9: the cost of the fallback.  When the attempt raises and every
    candidate of [x] evaluates, the composer was entered once for the
    attempt and once per candidate, in the order of the candidates, and the
    model was called, after the calls of the attempt, once per candidate
    and pair. *)
Theorem likelihood_wrapper_fallback_calls
  (x : ndarray) (t : list event) (e : exn) (cands rs : list ndarray) :
  likelihood_dilution (expand_last x) y d model = (t, Raise e) ->
  iterate x = Ok cands ->
  Forall2 (fun xi r => outcome (likelihood_dilution xi y d model) = Ok r)
    cands rs ->
  composer_calls (likelihood_wrapper model d x y true) =
    CallComposer (expand_last x) y ::
    map (fun xi => CallComposer xi y) cands /\
  model_calls (likelihood_wrapper model d x y true) =
    filter is_model_call t ++
    flat_map (fun xi => map (model_call_on xi) (combine d y)) cands.
Proof.
  intros Hattempt Hcands Hrs.
  rewrite (scan_after_exception _ _ _ _ _ _ Hattempt).
  unfold composer_calls, model_calls; cbn [trace fst].
  rewrite (trace_fallback_loop _ _ _ _ _ Hcands), !filter_app.
  rewrite (filter_composer_calls_loop _ _ Hrs),
    (filter_model_calls_loop _ _ Hrs).
  split; [ | reflexivity ].
  pose proof (composer_calls_likelihood_dilution (expand_last x) y d model)
    as Hc.
  rewrite Hattempt in Hc. unfold composer_calls in Hc; cbn [trace fst] in Hc.
  now rewrite Hc.
Qed.

(** X10: when scan mode returns a Python list, it comes from the loop and
    has one entry per row of [x] along its first axis. *)
Theorem likelihood_wrapper_fallback_length
  (x : ndarray) (rs : list ndarray) :
  outcome (likelihood_wrapper model d x y true) = Ok (AsList rs) ->
  exists n s, shape x = n :: s /\ length rs = n.
Proof.
  intros Hrs.
  destruct (likelihood_dilution (expand_last x) y d model) as [t [r | e]]
    eqn:Hattempt.
  { unfold likelihood_wrapper in Hrs.
    rewrite wrap_as_array, Hattempt in Hrs. discriminate. }
  rewrite (scan_after_exception _ _ _ _ _ _ Hattempt) in Hrs.
  cbn [outcome snd] in Hrs. rewrite outcome_fallback_loop in Hrs.
  unfold iterate in Hrs.
  destruct (shape x) as [ | n s]; [ discriminate | ].
  exists n, s. split; [ reflexivity | ].
  destruct (outcome (comprehension _ _)) as [rs' | e'] eqn:Hloop;
    [ | discriminate ].
  injection Hrs as <-.
  apply outcome_comprehension_inv, Forall2_length in Hloop.
  now rewrite <- Hloop, length_map, length_chunks.
Qed.

(** X11: an exception in the loop is not handled.  When the attempt has
    raised and the composer raises at a candidate, the candidates before
    it having evaluated, the wrapper raises the exception of that
    candidate and the later candidates are not evaluated. *)
Theorem likelihood_wrapper_fallback_exception
  (x : ndarray) (t : list event) (e e' : exn) (cands : list ndarray)
  (j : nat) :
  likelihood_dilution (expand_last x) y d model = (t, Raise e) ->
  iterate x = Ok cands ->
  (j < length cands)%nat ->
  (forall k, (k < j)%nat ->
     exists r,
       outcome (likelihood_dilution (nth k cands (scalar 0)) y d model)
       = Ok r) ->
  outcome (likelihood_dilution (nth j cands (scalar 0)) y d model)
  = Raise e' ->
  outcome (likelihood_wrapper model d x y true) = Raise e' /\
  composer_calls (likelihood_wrapper model d x y true) =
    CallComposer (expand_last x) y ::
    map (fun xi => CallComposer xi y) (firstn (S j) cands).
Proof.
  intros Hattempt Hcands Hj Hbefore Hat.
  rewrite (scan_after_exception _ _ _ _ _ _ Hattempt).
  split.
  - cbn [outcome snd]. rewrite outcome_fallback_loop, Hcands.
    now rewrite (outcome_comprehension_first_raise _ (scalar 0) _ j e').
  - unfold composer_calls; cbn [trace fst].
    rewrite (trace_fallback_loop _ _ _ _ _ Hcands), filter_app.
    rewrite (filter_composer_calls_loop_raised _ j e') by assumption.
    pose proof (composer_calls_likelihood_dilution (expand_last x) y d model)
      as Hc.
    rewrite Hattempt in Hc. unfold composer_calls in Hc; cbn [trace fst] in Hc.
    now rewrite Hc.
Qed.

End FallbackLoop.

(** ** These properties at the scenario *)

Lemma gauss_picky_model_answers (v y_i : R) :
  y_i <> 7 ->
  gauss_picky_model (scalar v) y_i =
  Ok (map_nd (fun u => - (y_i - u) ^ 2) (scalar v)).
Proof.
  intros Hy. unfold gauss_picky_model; cbn [shape scalar].
  now destruct (Req_dec_T y_i 7).
Qed.

Lemma gauss_picky_model_raises (v : R) :
  gauss_picky_model (scalar v) 7 = Raise "DomainError"%string.
Proof.
  unfold gauss_picky_model; cbn [shape scalar].
  now destruct (Req_dec_T 7 7).
Qed.

Lemma likelihood_dilution_picky (v : R) :
  outcome (likelihood_dilution (scalar v) [5; 7] [1; 2] gauss_picky_model) =
  Raise "DomainError"%string.
Proof.
  rewrite outcome_likelihood_dilution. cbn [combine].
  rewrite !outcome_comprehension_cons, !outcome_loglikelihood.
  cbn [fst snd].
  change (true_divide (scalar v) 1) with (scalar (v / 1)).
  change (true_divide (scalar v) 2) with (scalar (v / 2)).
  rewrite gauss_picky_model_answers by lra.
  now rewrite gauss_picky_model_raises.
Qed.

Lemma likelihood_dilution_stops_at_exception_witness :
  outcome (likelihood_dilution (scalar 10) [5; 7] [1; 2]
             gauss_picky_model) = Raise "DomainError"%string /\
  model_calls (likelihood_dilution (scalar 10) [5; 7] [1; 2]
                 gauss_picky_model) =
    map (model_call_on (scalar 10)) (firstn 2 (combine [1; 2] [5; 7])).
Proof.
  apply (likelihood_dilution_stops_at_exception (scalar 10)
           gauss_picky_model [1; 2] [5; 7] 1 "DomainError"%string).
  - cbn; lia.
  - intros j Hj. destruct j as [ | j]; [ | lia ].
    eexists. apply (gauss_picky_model_answers (10 / 1) 5). lra.
  - apply gauss_picky_model_raises.
Defined.

Lemma likelihood_dilution_calls_each_pair_once_witness :
  model_calls (likelihood_dilution (scalar 10) [5; 5] [1; 2] gauss_model) =
  map (model_call_on (scalar 10)) (combine [1; 2] [5; 5]).
Proof.
  apply (likelihood_dilution_calls_each_pair_once (scalar 10) gauss_model
           [1; 2] [5; 5]
           (match outcome (likelihood_dilution (scalar 10) [5; 5] [1; 2]
                             gauss_model) with
            | Ok a => a
            | Raise _ => scalar 0
            end)).
  reflexivity.
Defined.

Lemma likelihood_dilution_well_formed_witness :
  well_formed
    (match outcome (likelihood_dilution (vector [0; 10]) [5; 5] [1; 2]
                      gauss_model) with
     | Ok a => a
     | Raise _ => scalar 0
     end).
Proof.
  apply (likelihood_dilution_well_formed (vector [0; 10]) gauss_model
           [1; 2] [5; 5]).
  - reflexivity.
  - exact returns_arrays_gauss_model.
  - reflexivity.
Defined.

Lemma likelihood_dilution_elementwise_witness :
  outcome (likelihood_dilution (vector [0; 10]) [5; 5] [1; 2] gauss_model) =
  Ok (mk_nd [2%nat]
        (map (joint_likelihood (fun u y_i => - (y_i - u) ^ 2) [1; 2] [5; 5])
           [0; 10])).
Proof.
  apply (likelihood_dilution_elementwise (fun u y_i => - (y_i - u) ^ 2)
           gauss_model (vector [0; 10]) [1; 2] [5; 5]).
  - intros v y_i. reflexivity.
  - reflexivity.
  - cbn; lia.
  - reflexivity.
Defined.

Lemma likelihood_wrapper_modes_elementwise_witness :
  outcome (likelihood_wrapper gauss_model [1; 2] (vector [0; 10]) [5; 5]
             false) =
    Ok (AsArray
          (mk_nd [2%nat]
             (map (joint_likelihood (fun u y_i => - (y_i - u) ^ 2)
                     [1; 2] [5; 5]) [0; 10]))) /\
  outcome (likelihood_wrapper gauss_model [1; 2] (vector [0; 10]) [5; 5]
             true) =
    Ok (AsArray
          (mk_nd [2%nat; 1%nat]
             (map (joint_likelihood (fun u y_i => - (y_i - u) ^ 2)
                     [1; 2] [5; 5]) [0; 10]))).
Proof.
  apply (likelihood_wrapper_modes_elementwise (fun u y_i => - (y_i - u) ^ 2)
           gauss_model (vector [0; 10]) [1; 2] [5; 5]).
  - intros v y_i. reflexivity.
  - reflexivity.
  - cbn; lia.
  - reflexivity.
Defined.

Lemma likelihood_wrapper_scan_scalar_witness :
  likelihood_wrapper gauss_scalar_model [1; 2] (scalar 10) [5; 5] true =
  (trace (likelihood_dilution (expand_last (scalar 10)) [5; 5] [1; 2]
            gauss_scalar_model),
   Raise "TypeError"%string).
Proof.
  apply (likelihood_wrapper_scan_scalar gauss_scalar_model [1; 2] (scalar 10)
           [5; 5]
           (trace (likelihood_dilution (expand_last (scalar 10)) [5; 5]
                     [1; 2] gauss_scalar_model))
           "ValueError"%string).
  - reflexivity.
  - reflexivity.
Defined.

Lemma likelihood_wrapper_scan_vectorized_witness :
  outcome (likelihood_wrapper gauss_model [1; 2] (vector [0; 10]) [5; 5]
             true) =
    Ok (AsArray
          (match outcome (likelihood_dilution (expand_last (vector [0; 10]))
                            [5; 5] [1; 2] gauss_model) with
           | Ok a => a
           | Raise _ => scalar 0
           end)) /\
  composer_calls (likelihood_wrapper gauss_model [1; 2] (vector [0; 10])
                    [5; 5] true) =
    [CallComposer (expand_last (vector [0; 10])) [5; 5]] /\
  model_calls (likelihood_wrapper gauss_model [1; 2] (vector [0; 10])
                 [5; 5] true) =
    map (model_call_on (expand_last (vector [0; 10])))
      (combine [1; 2] [5; 5]).
Proof.
  apply (likelihood_wrapper_scan_vectorized gauss_model [1; 2]
           (vector [0; 10]) [5; 5]).
  reflexivity.
Defined.

Lemma likelihood_wrapper_fallback_calls_witness :
  composer_calls (likelihood_wrapper gauss_scalar_model [1; 2]
                    (vector [0; 10]) [5; 5] true) =
    CallComposer (expand_last (vector [0; 10])) [5; 5] ::
    map (fun xi => CallComposer xi [5; 5]) [scalar 0; scalar 10] /\
  model_calls (likelihood_wrapper gauss_scalar_model [1; 2]
                 (vector [0; 10]) [5; 5] true) =
    filter is_model_call
      (trace (likelihood_dilution (expand_last (vector [0; 10])) [5; 5]
                [1; 2] gauss_scalar_model)) ++
    flat_map (fun xi => map (model_call_on xi) (combine [1; 2] [5; 5]))
      [scalar 0; scalar 10].
Proof.
  apply (likelihood_wrapper_fallback_calls gauss_scalar_model [1; 2] [5; 5]
           (vector [0; 10])
           (trace (likelihood_dilution (expand_last (vector [0; 10])) [5; 5]
                     [1; 2] gauss_scalar_model))
           "ValueError"%string
           [scalar 0; scalar 10]
           (map (fun xi =>
                   match outcome (likelihood_dilution xi [5; 5] [1; 2]
                                    gauss_scalar_model) with
                   | Ok a => a
                   | Raise _ => scalar 0
                   end) [scalar 0; scalar 10])).
  - reflexivity.
  - reflexivity.
  - repeat constructor.
Defined.

Lemma likelihood_wrapper_fallback_length_witness :
  exists n s,
    shape (vector [0; 10]) = n :: s /\
    length
      (map (fun xi =>
              match outcome (likelihood_dilution xi [5; 5] [1; 2]
                               gauss_scalar_model) with
              | Ok a => a
              | Raise _ => scalar 0
              end) [scalar 0; scalar 10]) = n.
Proof.
  apply (likelihood_wrapper_fallback_length gauss_scalar_model [1; 2] [5; 5]
           (vector [0; 10])).
  reflexivity.
Defined.

Lemma likelihood_wrapper_fallback_exception_witness :
  outcome (likelihood_wrapper gauss_picky_model [1; 2] (vector [0; 10])
             [5; 7] true) = Raise "DomainError"%string /\
  composer_calls (likelihood_wrapper gauss_picky_model [1; 2]
                    (vector [0; 10]) [5; 7] true) =
    CallComposer (expand_last (vector [0; 10])) [5; 7] ::
    map (fun xi => CallComposer xi [5; 7])
      (firstn 1 [scalar 0; scalar 10]).
Proof.
  apply (likelihood_wrapper_fallback_exception gauss_picky_model [1; 2]
           [5; 7] (vector [0; 10])
           (trace (likelihood_dilution (expand_last (vector [0; 10]))
                     [5; 7] [1; 2] gauss_picky_model))
           "ValueError"%string "DomainError"%string
           [scalar 0; scalar 10] O).
  - reflexivity.
  - reflexivity.
  - cbn; lia.
  - intros k Hk. inversion Hk.
  - apply likelihood_dilution_picky.
Defined.

(** ** The order of the pairs, in float64 arithmetic *)

(** The specification of binary64 addition: two numbers added to zero,
    one after the other, give the same in either order. *)
Lemma SFadd_zero_swap (A B : spec_float) :
  SF64add (SF64add (S754_zero false) A) B =
  SF64add (SF64add (S754_zero false) B) A.
Proof.
  unfold SF64add.
  destruct A as [[ | ] | [ | ] | | [ | ] mA eA],
           B as [[ | ] | [ | ] | | [ | ] mB eB];
    try reflexivity;
    unfold SFadd; rewrite (Z.min_comm eA eB), Z.add_comm; reflexivity.
Qed.

(** Two numbers added to zero, one after the other, in either order. *)
Lemma float_add_zero_swap (u v : float) :
  PrimFloat.add (PrimFloat.add 0%float u) v =
  PrimFloat.add (PrimFloat.add 0%float v) u.
Proof.
  apply Prim2SF_inj. rewrite !add_spec.
  change (Prim2SF 0%float) with (S754_zero false).
  apply SFadd_zero_swap.
Qed.

Lemma add_data_zeros_swap (n : nat) : forall a b,
  Float64.add_data (Float64.add_data (repeat 0%float n) a) b =
  Float64.add_data (Float64.add_data (repeat 0%float n) b) a.
Proof.
  induction n as [ | n IH]; intros [ | u a] [ | v b]; try reflexivity.
  unfold Float64.add_data in *. cbn. f_equal.
  - apply float_add_zero_swap.
  - apply IH.
Qed.

Lemma np_sum64_same_shape (LLs : list Float64.ndarray) (s : list nat) :
  LLs <> [] ->
  Forall (fun a => Float64.shape a = s) LLs ->
  exists r, Float64.np_sum_axis0 LLs = Ok r.
Proof.
  destruct LLs as [ | a rest]; [ easy | ]. intros _ Hs.
  inversion Hs as [ | ? ? Ha Hrest]; subst.
  unfold Float64.np_sum_axis0.
  replace (forallb _ rest) with true.
  - destruct (length (a :: rest) <? 8)%nat; eexists; reflexivity.
  - symmetry. apply forallb_forall. intros b Hb.
    apply shape_eqb_true. rewrite Forall_forall in Hrest. now apply Hrest.
Qed.

Lemma np_sum64_mixed_shapes (LLs : list Float64.ndarray) a b :
  In a LLs -> In b LLs -> Float64.shape a <> Float64.shape b ->
  Float64.np_sum_axis0 LLs = Raise "ValueError"%string.
Proof.
  destruct LLs as [ | c rest]; [ easy | ]. intros Ha Hb Hab.
  unfold Float64.np_sum_axis0.
  destruct (forallb _ rest) eqn:Hall; [ exfalso | reflexivity ].
  rewrite forallb_forall in Hall.
  assert (Hc : forall u, In u (c :: rest) ->
                 Float64.shape u = Float64.shape c).
  { intros u [<- | Hu]; [ reflexivity | ].
    now apply shape_eqb_true, Hall. }
  apply Hab. now rewrite (Hc a), (Hc b).
Qed.

(** Whether [numpy.sum] raises does not depend on the order of the
    list. *)
Lemma np_sum64_raises_permutation (LLs LLs' : list Float64.ndarray) :
  Permutation LLs LLs' ->
  match Float64.np_sum_axis0 LLs, Float64.np_sum_axis0 LLs' with
  | Ok _, Ok _ => True
  | Raise _, Raise _ => True
  | _, _ => False
  end.
Proof.
  intros HP.
  destruct LLs as [ | a rest].
  { apply Permutation_nil in HP. now subst. }
  destruct (Forall_dec (fun u => Float64.shape u = Float64.shape a)
              (fun u => list_eq_dec Nat.eq_dec
                          (Float64.shape u) (Float64.shape a))
              (a :: rest)) as [Hall | Hnot].
  - destruct (np_sum64_same_shape (a :: rest) (Float64.shape a))
      as [r ->]; try easy.
    destruct (np_sum64_same_shape LLs' (Float64.shape a)) as [r' ->].
    + intros ->. apply Permutation_sym, Permutation_nil in HP. easy.
    + eapply Permutation_Forall; eassumption.
    + exact I.
  - apply Exists_Forall_neg in Hnot;
      [ | intros u; destruct (list_eq_dec Nat.eq_dec
                                (Float64.shape u) (Float64.shape a));
          tauto ].
    apply Exists_exists in Hnot as [b [Hb Hab]].
    rewrite (np_sum64_mixed_shapes (a :: rest) b a);
      [ | assumption | now left | assumption ].
    rewrite (np_sum64_mixed_shapes LLs' b a); try easy.
    + eapply Permutation_in; eassumption.
    + eapply Permutation_in; [ eassumption | now left ].
Qed.

Lemma np_sum64_swap (a b : Float64.ndarray) :
  Float64.np_sum_axis0 [b; a] = Float64.np_sum_axis0 [a; b].
Proof.
  unfold Float64.np_sum_axis0; cbn [forallb andb length Nat.ltb Nat.leb].
  unfold shape_eqb.
  destruct (list_eq_dec Nat.eq_dec (Float64.shape a) (Float64.shape b))
    as [Hab | Hab],
    (list_eq_dec Nat.eq_dec (Float64.shape b) (Float64.shape a))
    as [Hba | Hba]; try congruence; cbn [andb map fold_left];
    [ | reflexivity ].
  rewrite Hab. now rewrite add_data_zeros_swap.
Qed.

(** With at most two members, [numpy.sum] does not depend on their
    order. *)
Lemma np_sum64_permutation_short (LLs LLs' : list Float64.ndarray) :
  Permutation LLs LLs' ->
  (length LLs <= 2)%nat ->
  Float64.np_sum_axis0 LLs' = Float64.np_sum_axis0 LLs.
Proof.
  intros HP Hlen.
  pose proof (Permutation_length HP) as Hl.
  destruct LLs as [ | a [ | b [ | c LLs]]]; cbn in Hlen; try lia.
  - apply Permutation_nil in HP. now subst.
  - apply Permutation_length_1_inv in HP. now subst.
  - destruct LLs' as [ | a' [ | b' [ | c' LLs']]]; cbn in Hl; try lia.
    apply Permutation_length_2 in HP as [[<- <-] | [<- <-]];
      [ reflexivity | apply np_sum64_swap ].
Qed.

Lemma outcome_likelihood_dilution64 x y d model :
  outcome (Float64.likelihood_dilution x y d model) =
  match outcome (Float64.loglikelihoods x y d model) with
  | Ok LLs =>
      match Float64.np_sum_axis0 LLs with
      | Ok (Some s) => Ok (Float64.exp s)
      | Ok None => Ok None
      | Raise e => Raise e
      end
  | Raise e => Raise e
  end.
Proof.
  unfold Float64.likelihood_dilution.
  rewrite outcome_bind.
  destruct (outcome (Float64.loglikelihoods x y d model)) as [LLs | e];
    [ | reflexivity ].
  rewrite outcome_bind; cbn [lift outcome snd].
  destruct (Float64.np_sum_axis0 LLs) as [[s | ] | e]; reflexivity.
Qed.

(** C5, as the code has it: a permutation of the pairs [(d_i, y_i)], the
    same in [d] and in [y], permutes the log-likelihoods the composer sums,
    and the composer returns in both orders or raises in both.  With at
    most two pairs [numpy.sum] gives the same array in both orders, so
    [numpy.exp] is applied to the same array and the composer returns the
    same likelihood.  With more pairs the roundings of the running sum
    depend on the order. *)
Theorem likelihood_dilution_float64_order
  (x : Float64.ndarray) (model : Float64.calibration_model)
  (d y d' y' : list float) :
  Permutation (combine d y) (combine d' y') ->
  match returned (Float64.loglikelihoods x y d model),
        returned (Float64.loglikelihoods x y' d' model) with
  | Some LLs, Some LLs' =>
      Permutation LLs LLs' /\
      ((length LLs <= 2)%nat ->
       Float64.np_sum_axis0 LLs' = Float64.np_sum_axis0 LLs)
  | None, None => True
  | _, _ => False
  end /\
  (returned (Float64.likelihood_dilution x y' d' model) = None <->
   returned (Float64.likelihood_dilution x y d model) = None) /\
  ((length (combine d y) <= 2)%nat ->
   returned (Float64.likelihood_dilution x y' d' model) =
   returned (Float64.likelihood_dilution x y d model)).
Proof.
  intros HP.
  pose proof (returned_comprehension_permutation
                (fun p => lift (model (Float64.true_divide x (fst p)) (snd p)))
                _ _ HP) as Hc.
  fold (Float64.loglikelihoods x y d model) in Hc.
  fold (Float64.loglikelihoods x y' d' model) in Hc.
  assert (Hlen : forall LLs,
            outcome (Float64.loglikelihoods x y d model) = Ok LLs ->
            length LLs = length (combine d y)).
  { intros LLs HLLs. symmetry.
    apply outcome_comprehension_inv, Forall2_length in HLLs. exact HLLs. }
  unfold returned in *.
  rewrite !outcome_likelihood_dilution64.
  destruct (outcome (Float64.loglikelihoods x y d model)) as [LLs | e],
           (outcome (Float64.loglikelihoods x y' d' model)) as [LLs' | e'];
    try easy.
  pose proof (np_sum64_raises_permutation _ _ Hc) as Hr.
  pose proof (np_sum64_permutation_short _ _ Hc) as Hs.
  specialize (Hlen LLs eq_refl).
  split; [ now split | split ].
  - destruct (Float64.np_sum_axis0 LLs) as [[s | ] | e],
             (Float64.np_sum_axis0 LLs') as [[s' | ] | e']; easy.
  - intros H2. rewrite Hs by lia. reflexivity.
Qed.

Lemma likelihood_dilution_float64_order_witness :
  match returned (Float64.loglikelihoods (Float64.scalar 0%float)
                    [1%float; 0%float] [1%float; 1%float]
                    Float64.observation_model),
        returned (Float64.loglikelihoods (Float64.scalar 0%float)
                    [0%float; 1%float] [1%float; 1%float]
                    Float64.observation_model) with
  | Some LLs, Some LLs' =>
      Permutation LLs LLs' /\
      ((length LLs <= 2)%nat ->
       Float64.np_sum_axis0 LLs' = Float64.np_sum_axis0 LLs)
  | None, None => True
  | _, _ => False
  end /\
  (returned (Float64.likelihood_dilution (Float64.scalar 0%float)
               [0%float; 1%float] [1%float; 1%float]
               Float64.observation_model) = None <->
   returned (Float64.likelihood_dilution (Float64.scalar 0%float)
               [1%float; 0%float] [1%float; 1%float]
               Float64.observation_model) = None) /\
  ((length (combine [1%float; 1%float] [1%float; 0%float]) <= 2)%nat ->
   returned (Float64.likelihood_dilution (Float64.scalar 0%float)
               [0%float; 1%float] [1%float; 1%float]
               Float64.observation_model) =
   returned (Float64.likelihood_dilution (Float64.scalar 0%float)
               [1%float; 0%float] [1%float; 1%float]
               Float64.observation_model)).
Proof.
  apply (likelihood_dilution_float64_order (Float64.scalar 0%float)
           Float64.observation_model
           [1%float; 1%float] [1%float; 0%float]
           [1%float; 1%float] [0%float; 1%float]).
  cbn. apply perm_swap.
Defined.

(** C5 as it is stated fails with three pairs: for [d = [1, 1, 1]] and the
    log-likelihood [y], at the candidate 0, the observations
    [[1e16, 1, -1e16]] give the likelihood [exp(0.0) = 1.0] and the same
    observations in the order [[1e16, -1e16, 1]] give
    [exp(1.0) = 2.718281828459045]. *)
Lemma likelihood_dilution_float64_order_counterexample :
  Permutation
    (combine [1%float; 1%float; 1%float] [1e16%float; 1%float; (-1e16)%float])
    (combine [1%float; 1%float; 1%float] [1e16%float; (-1e16)%float; 1%float])
  /\
  returned (Float64.likelihood_dilution (Float64.scalar 0%float)
              [1e16%float; 1%float; (-1e16)%float]
              [1%float; 1%float; 1%float] Float64.observation_model) =
    Some (Some (Float64.scalar 1%float)) /\
  returned (Float64.likelihood_dilution (Float64.scalar 0%float)
              [1e16%float; (-1e16)%float; 1%float]
              [1%float; 1%float; 1%float] Float64.observation_model) =
    Some (Some (Float64.scalar 0x1.5bf0a8b145769p+1%float)) /\
  returned (Float64.likelihood_dilution (Float64.scalar 0%float)
              [1e16%float; (-1e16)%float; 1%float]
              [1%float; 1%float; 1%float] Float64.observation_model) <>
  returned (Float64.likelihood_dilution (Float64.scalar 0%float)
              [1e16%float; 1%float; (-1e16)%float]
              [1%float; 1%float; 1%float] Float64.observation_model).
Proof.
  assert (H1 : returned (Float64.likelihood_dilution (Float64.scalar 0%float)
              [1e16%float; 1%float; (-1e16)%float]
              [1%float; 1%float; 1%float] Float64.observation_model) =
    Some (Some (Float64.scalar 1%float))) by (vm_compute; reflexivity).
  assert (H2 : returned (Float64.likelihood_dilution (Float64.scalar 0%float)
              [1e16%float; (-1e16)%float; 1%float]
              [1%float; 1%float; 1%float] Float64.observation_model) =
    Some (Some (Float64.scalar 0x1.5bf0a8b145769p+1%float)))
    by (vm_compute; reflexivity).
  split; [ cbn; apply perm_skip, perm_swap | ].
  split; [ exact H1 | split; [ exact H2 | ] ].
  rewrite H1, H2. intros H.
  apply (f_equal (fun r =>
           match r with
           | Some (Some a) =>
               match Float64.data a with
               | v :: _ => PrimFloat.eqb v 1%float
               | [] => true
               end
           | _ => true
           end)) in H.
  vm_compute in H. discriminate.
Qed.
